(** * glop/sprite: a shallow embedding of the sprite engine

    The development follows the Go package [sprite]: the graph model the
    engine receives from the yed parser, command intake ([baseCommand],
    [CommandSync]), path finding ([pathingGraph], [findPathForCmd],
    [findPathForSyncedCmd]), the barrier of a [commandGroup] ([ready]),
    snapshots ([GetSpriteState], [SetSpriteState]) and the per-frame
    [Think] loop.

    Conventions.
    - Go's [int] and [int64] are 64-bit two's-complement integers: they are
      carried as [Z] and every arithmetic operation wraps ([wrap64]).
    - [float64] is Rocq's primitive binary64 float.
    - A [*yed.Node] is the index of the node in its graph; a [*yed.Edge] is
      the edge record, whose [e_id] stands for its address.
    - A [*Sprite] and a [*commandGroup] are indices into the arenas of the
      [World]; objects that the Go code shares by pointer are shared here
      through these indices.
    - A run-time panic is the result [Panic]; the recursion of [Think] is
      bounded by fuel and [Timeout] is returned when it runs out. *)

From Stdlib Require Import ZArith List Bool String.
From Stdlib Require Import Floats.PrimFloat.
From stdpp Require Import gmap strings list.

Local Open Scope Z_scope.

(** ** Machine integers *)

Definition wrap64 (z : Z) : Z := (z + 2 ^ 63) mod 2 ^ 64 - 2 ^ 63.
Definition add64 (a b : Z) : Z := wrap64 (a + b).
Definition sub64 (a b : Z) : Z := wrap64 (a - b).
(** Go's [%] truncates toward zero; the caller checks for a zero divisor. *)
Definition rem64 (a b : Z) : Z := wrap64 (Z.rem a b).
Definition in_int64 (z : Z) : Prop := - 2 ^ 63 <= z < 2 ^ 63.

(** ** Results of running Go code *)

Inductive Res (A : Type) : Type :=
| Done (a : A)
| Panic
| Timeout.
Arguments Done {A} a.
Arguments Panic {A}.
Arguments Timeout {A}.

Definition bindR {A B} (r : Res A) (k : A -> Res B) : Res B :=
  match r with
  | Done a => k a
  | Panic => Panic
  | Timeout => Timeout
  end.

Notation "'do' x <- r ; k" := (bindR r (fun x => k))
  (at level 10, x pattern, r at level 100, k at level 200).

(** ** The graph model (package yed, as the engine uses it) *)

Record Edge := mkEdge {
  e_id : nat;     (* identity of the edge object *)
  e_src : nat;    (* edge.Src(), a node of the same graph *)
  e_dst : nat     (* edge.Dst() *)
}.

Record Node := mkNode {
  n_line0 : string;                  (* node.Line(0) *)
  n_tags : list (string * string);   (* node.Tag(key) *)
  n_group : option nat;              (* node.Group(), None is nil *)
  n_outputs : list Edge;             (* node.Output(i) *)
  n_group_outputs : list Edge        (* node.GroupOutput(i) *)
}.

Record Graph := mkGraph {
  g_nodes : list Node;   (* graph.Node(i) *)
  g_edges : list Edge    (* graph.Edge(i) *)
}.

Definition NumNodes (g : Graph) : nat := length (g_nodes g).

Definition isolated : Node := mkNode "" [] None [] [].

(** Dereference of a node pointer.  Every node index held by a graph or by
    a sprite was produced by the graph itself; an index outside the arena
    is read as a node without tags, group or edges. *)
Definition the_node (g : Graph) (i : nat) : Node :=
  default isolated (g_nodes g !! i).

Fixpoint assoc_tag (tags : list (string * string)) (key : string) : string :=
  match tags with
  | [] => ""
  | (k, v) :: rest => if String.eqb k key then v else assoc_tag rest key
  end.

(** [node.Tag(key)]: the empty string when the tag is absent. *)
Definition Tag (g : Graph) (i : nat) (key : string) : string :=
  assoc_tag (n_tags (the_node g i)) key.

Definition Group (g : Graph) (i : nat) : option nat := n_group (the_node g i).
Definition Outputs (g : Graph) (i : nat) : list Edge := n_outputs (the_node g i).
Definition GroupOutputs (g : Graph) (i : nat) : list Edge :=
  n_group_outputs (the_node g i).

(** ** Data derived at load time (sharedSprite) *)

Record nodeData := mkNodeData {
  nd_time : Z;
  nd_sync_tag : string;
  nd_state : string
}.

Record edgeData := mkEdgeData {
  ed_facing : Z;
  ed_weight : float;
  ed_cmd : string
}.

Definition zeroNodeData : nodeData := mkNodeData 0 "" "".
Definition zeroEdgeData : edgeData := mkEdgeData 0 0%float "".

Record sharedSprite := mkShared {
  sh_anim : Graph;
  sh_state : Graph;
  sh_anim_start : nat;
  sh_state_start : nat;
  sh_node_data : gmap nat nodeData;   (* keyed by anim node *)
  sh_edge_data : gmap nat edgeData;   (* keyed by edge identity *)
  sh_facings : nat                    (* len(shared.facings) *)
}.

(** Reading a Go map at a missing key gives the zero value. *)
Definition node_data (sh : sharedSprite) (n : nat) : nodeData :=
  default zeroNodeData (sh_node_data sh !! n).
Definition edge_data (sh : sharedSprite) (e : Edge) : edgeData :=
  default zeroEdgeData (sh_edge_data sh !! e_id e).
(** [edge_data[edge]] where [edge] may be nil. *)
Definition edge_data_opt (sh : sharedSprite) (e : option Edge) : edgeData :=
  match e with
  | Some e => edge_data sh e
  | None => zeroEdgeData
  end.

(** ** Graphs as the shortest-path search sees them (algorithm.Graph) *)

Record AlgoGraph := mkAlgoGraph {
  NumVertex : nat;
  Adjacent : nat -> list nat * list float
}.

(** ** pathingGraph *)

Record pathingGraph := mkPathing {
  pg_shared : sharedSprite;
  pg_start : nat;
  pg_cmd : string
}.

Definition pathing_NumVertex (p : pathingGraph) : nat :=
  NumNodes (sh_anim (pg_shared p)) + 1.

(** Edges are followed when they carry no command or the command searched
    for. *)
Definition eligible (p : pathingGraph) (e : Edge) : bool :=
  negb (negb (String.eqb (ed_cmd (edge_data (pg_shared p) e)) "")
        && negb (String.eqb (ed_cmd (edge_data (pg_shared p) e)) (pg_cmd p))).

Definition pathing_node (p : pathingGraph) (n : nat) : nat :=
  if Nat.eqb n (NumNodes (sh_anim (pg_shared p))) then pg_start p else n.

Fixpoint pathing_scan (p : pathingGraph) (es : list Edge)
  : list nat * list float :=
  match es with
  | [] => ([], [])
  | e :: rest =>
      let '(adj, cost) := pathing_scan p rest in
      if eligible p e then (e_dst e :: adj, 1%float :: cost) else (adj, cost)
  end.

Definition pathing_Adjacent (p : pathingGraph) (n : nat)
  : list nat * list float :=
  pathing_scan p (GroupOutputs (sh_anim (pg_shared p)) (pathing_node p n)).

Definition pathing_graph (p : pathingGraph) : AlgoGraph :=
  mkAlgoGraph (pathing_NumVertex p) (pathing_Adjacent p).

(** The test of animAlgoGraph.Adjacent for an edge that leads away from
    the group of the node it is followed from. *)
Definition leaves_group (g : Graph) (n : nat) (e : Edge) : bool :=
  match Group g n with
  | None => false
  | Some grp =>
      match Group g (e_dst e) with
      | Some grp' => negb (Nat.eqb grp' grp)
      | None => true
      end
  end.

(** ** Shortest paths (algorithm.Dijkstra) *)

Module Algorithm.

(** An entry of the frontier: a vertex, the weight of the path that
    reached it and that path, last vertex first. *)
Record dNode := mkDNode {
  d_v : nat;
  d_weight : float;
  d_rev : list nat
}.

Fixpoint min_weight (w : float) (h : list dNode) : float :=
  match h with
  | [] => w
  | d :: rest =>
      min_weight (if PrimFloat.ltb (d_weight d) w then d_weight d else w) rest
  end.

(** Removes the first entry whose weight is not above [w]. *)
Fixpoint take_first (w : float) (h : list dNode) : option (dNode * list dNode) :=
  match h with
  | [] => None
  | d :: rest =>
      if PrimFloat.leb (d_weight d) w then Some (d, rest)
      else match take_first w rest with
           | Some (m, rest') => Some (m, d :: rest')
           | None => None
           end
  end.

Definition pop (h : list dNode) : option (dNode * list dNode) :=
  match h with
  | [] => None
  | d :: rest => take_first (min_weight (d_weight d) rest) h
  end.

Fixpoint push_all (cur : dNode) (adj : list nat) (ws : list float)
    (h : list dNode) : list dNode :=
  match adj, ws with
  | a :: adj', w :: ws' =>
      push_all cur adj' ws'
        (h ++ [mkDNode a (PrimFloat.add (d_weight cur) w) (a :: d_rev cur)])
  | _, _ => h
  end.

Fixpoint search (fuel : nat) (g : AlgoGraph) (dst : list nat)
    (used : list nat) (h : list dNode) : float * list nat :=
  match fuel with
  | O => ((-1)%float, [])
  | S fuel' =>
      match pop h with
      | None => ((-1)%float, [])
      | Some (cur, h') =>
          if existsb (Nat.eqb (d_v cur)) used then search fuel' g dst used h'
          else if existsb (Nat.eqb (d_v cur)) dst
               then (d_weight cur, rev (d_rev cur))
               else let '(adj, ws) := Adjacent g (d_v cur) in
                    search fuel' g dst (d_v cur :: used) (push_all cur adj ws h')
      end
  end.

(** Every iteration removes one frontier entry; an entry is added for an
    edge of a vertex visited for the first time. *)
Definition budget (g : AlgoGraph) (src : list nat) : nat :=
  length src
  + fold_right (fun v acc => length (fst (Adjacent g v)) + acc)%nat 0%nat
      (seq 0 (NumVertex g))
  + 1.

(** Modelled from the spec: [algorithm.Dijkstra] of util/algorithm, which
    is not among the sources.  It returns the weight of a minimum-cost
    path from a vertex of [src] to a vertex of [dst] and the vertices of
    that path, source first; without a path it returns [-1] and no
    path. *)
Definition Dijkstra (g : AlgoGraph) (src dst : list nat) : float * list nat :=
  search (budget g src) g dst []
    (map (fun s => mkDNode s 0%float [s]) src).

End Algorithm.

(** ** Sprites, commands, groups and the world they live in *)

Record command := mkCommand {
  names : list string;   (* names of edges, in order *)
  group : option nat     (* *commandGroup, None is nil *)
}.

Record waiter := mkWaiter {
  wt_id : nat;                        (* identity of the channel *)
  wt_states : option (list string)    (* None is a nil slice *)
}.

Record Sprite := mkSprite {
  shared : sharedSprite;
  anim_node : nat;
  state_node : nat;
  trigger : bool;          (* is a TriggerFunc installed *)
  thinks : Z;
  facing : Z;
  prev_facing : Z;
  state_facing : Z;
  togo : Z;
  path : list nat;
  pending_cmds : list command;
  waiters : list waiter
}.

Record commandGroup := mkGroup {
  sync_tag : string;
  sprites : list nat;              (* []*Sprite *)
  was_ready : bool;
  eta : gmap nat Z;                (* map[*Sprite]int64 *)
  paths : gmap nat (list nat)      (* map[*Sprite][]*yed.Node *)
}.

(** What the engine does to its collaborators. *)
Inductive Event : Type :=
| Load (facing : Z)                       (* shared.facings[i].Load() *)
| Unload (facing : Z)                     (* shared.facings[i].Unload() *)
| Trigger (sprite : nat) (arg : string)   (* s.trigger(s, tag) *)
| Signal (w : nat).                       (* waiter.c <- struct{}{} *)

Record World := mkWorld {
  w_sprites : list Sprite;
  w_groups : list commandGroup;
  w_rand : nat;              (* calls made to rand.Float64 so far *)
  w_trace : list Event
}.

Definition set_anim_node (s : Sprite) (v : nat) : Sprite :=
  mkSprite (shared s) v (state_node s) (trigger s) (thinks s) (facing s)
    (prev_facing s) (state_facing s) (togo s) (path s) (pending_cmds s) (waiters s).
Definition set_state_node (s : Sprite) (v : nat) : Sprite :=
  mkSprite (shared s) (anim_node s) v (trigger s) (thinks s) (facing s)
    (prev_facing s) (state_facing s) (togo s) (path s) (pending_cmds s) (waiters s).
Definition set_thinks (s : Sprite) (v : Z) : Sprite :=
  mkSprite (shared s) (anim_node s) (state_node s) (trigger s) v (facing s)
    (prev_facing s) (state_facing s) (togo s) (path s) (pending_cmds s) (waiters s).
Definition set_facing (s : Sprite) (v : Z) : Sprite :=
  mkSprite (shared s) (anim_node s) (state_node s) (trigger s) (thinks s) v
    (prev_facing s) (state_facing s) (togo s) (path s) (pending_cmds s) (waiters s).
Definition set_prev_facing (s : Sprite) (v : Z) : Sprite :=
  mkSprite (shared s) (anim_node s) (state_node s) (trigger s) (thinks s) (facing s)
    v (state_facing s) (togo s) (path s) (pending_cmds s) (waiters s).
Definition set_state_facing (s : Sprite) (v : Z) : Sprite :=
  mkSprite (shared s) (anim_node s) (state_node s) (trigger s) (thinks s) (facing s)
    (prev_facing s) v (togo s) (path s) (pending_cmds s) (waiters s).
Definition set_togo (s : Sprite) (v : Z) : Sprite :=
  mkSprite (shared s) (anim_node s) (state_node s) (trigger s) (thinks s) (facing s)
    (prev_facing s) (state_facing s) v (path s) (pending_cmds s) (waiters s).
Definition set_path (s : Sprite) (v : list nat) : Sprite :=
  mkSprite (shared s) (anim_node s) (state_node s) (trigger s) (thinks s) (facing s)
    (prev_facing s) (state_facing s) (togo s) v (pending_cmds s) (waiters s).
Definition set_pending_cmds (s : Sprite) (v : list command) : Sprite :=
  mkSprite (shared s) (anim_node s) (state_node s) (trigger s) (thinks s) (facing s)
    (prev_facing s) (state_facing s) (togo s) (path s) v (waiters s).
Definition set_waiters (s : Sprite) (v : list waiter) : Sprite :=
  mkSprite (shared s) (anim_node s) (state_node s) (trigger s) (thinks s) (facing s)
    (prev_facing s) (state_facing s) (togo s) (path s) (pending_cmds s) v.

Definition put_sprite (sid : nat) (s : Sprite) (w : World) : World :=
  mkWorld (<[sid := s]> (w_sprites w)) (w_groups w) (w_rand w) (w_trace w).
Definition put_group (gid : nat) (g : commandGroup) (w : World) : World :=
  mkWorld (w_sprites w) (<[gid := g]> (w_groups w)) (w_rand w) (w_trace w).
Definition set_rand (k : nat) (w : World) : World :=
  mkWorld (w_sprites w) (w_groups w) k (w_trace w).
Definition emit (ev : list Event) (w : World) : World :=
  mkWorld (w_sprites w) (w_groups w) (w_rand w) (w_trace w ++ ev).

(** Following a [*Sprite] or a [*commandGroup]; an index outside the arena
    is a nil pointer. *)
Definition get_sprite (sid : nat) (w : World) : Res Sprite :=
  match w_sprites w !! sid with
  | Some s => Done s
  | None => Panic
  end.
Definition get_group (gid : nat) (w : World) : Res commandGroup :=
  match w_groups w !! gid with
  | Some g => Done g
  | None => Panic
  end.

(** [shared.facings[i].Load()] and [Unload()]: the index must be in range. *)
Definition facing_ok (sh : sharedSprite) (i : Z) : bool :=
  (0 <=? i) && (i <? Z.of_nat (sh_facings sh)).

(** The sprite as [Manager.LoadSprite] hands it out. *)
Definition newSprite (sh : sharedSprite) : Sprite :=
  mkSprite sh (sh_anim_start sh) (sh_state_start sh) false 0 0 0 0 0 [] [] [].

(** Queries. *)
Definition NumPendingCmds (s : Sprite) : nat := length (pending_cmds s).
Definition Idle (s : Sprite) : bool :=
  Nat.eqb (length (pending_cmds s)) 0 && Nat.eqb (length (path s)) 0.
Definition State (s : Sprite) : string :=
  n_line0 (the_node (sh_state (shared s)) (state_node s)).
Definition Anim (s : Sprite) : string :=
  n_line0 (the_node (sh_anim (shared s)) (anim_node s)).
Definition AnimState (s : Sprite) : string :=
  nd_state (node_data (shared s) (anim_node s)).
Definition Facing (s : Sprite) : Z := facing s.

(** ** Edges between nodes *)

Definition connectedByGroupEdge (g : Graph) (n1 n2 : nat) : bool :=
  existsb (fun e => negb (Nat.eqb (e_src e) n1) && Nat.eqb (e_dst e) n2)
    (GroupOutputs g n1).

(** [b], its group, the group of its group, ...  The groups of a parsed
    graph form a forest, so the chain has at most [NumNodes] members. *)
Fixpoint ancestry (fuel : nat) (g : Graph) (b : nat) : list nat :=
  match fuel with
  | O => []
  | S fuel' =>
      b :: match Group g b with
           | Some p => ancestry fuel' g p
           | None => []
           end
  end.

Definition edgeTo (g : Graph) (a b : nat) : option Edge :=
  List.find (fun e => existsb (Nat.eqb (e_dst e)) (ancestry (S (NumNodes g)) g b))
    (GroupOutputs g a).

(** ** Weighted random choice of an outgoing edge *)

Definition in_cmds (cmds : list string) (c : string) : bool :=
  existsb (String.eqb c) cmds.

(** First loop of [selectAnEdge]: the total weight of the matching edges. *)
Fixpoint total_weight (sh : sharedSprite) (cmds : list string)
    (es : list Edge) (total : float) : float :=
  match es with
  | [] => total
  | e :: rest =>
      if in_cmds cmds (ed_cmd (edge_data sh e))
      then total_weight sh cmds rest (PrimFloat.add total (ed_weight (edge_data sh e)))
      else total_weight sh cmds rest total
  end.

(** Second loop: the first matching edge at which the running total
    reaches [pick]. *)
Fixpoint pick_edge (sh : sharedSprite) (cmds : list string)
    (es : list Edge) (total pick : float) : option Edge :=
  match es with
  | [] => None
  | e :: rest =>
      if in_cmds cmds (ed_cmd (edge_data sh e))
      then let total' := PrimFloat.add total (ed_weight (edge_data sh e)) in
           if PrimFloat.leb pick total' then Some e
           else pick_edge sh cmds rest total' pick
      else pick_edge sh cmds rest total pick
  end.

Section Engine.

(** [rand.Float64()]: the value returned by the k-th call. *)
Variable rand_Float64 : nat -> float.

(** [algorithm.Dijkstra]. *)
Variable Dijkstra : AlgoGraph -> list nat -> list nat -> float * list nat.

(** Returns the chosen edge and the number of calls made to the random
    source afterwards. *)
Definition selectAnEdge (g : Graph) (sh : sharedSprite) (node : nat)
    (cmds : list string) (k : nat) : option Edge * nat :=
  let total := total_weight sh cmds (Outputs g node) 0%float in
  if PrimFloat.ltb 0%float total
  then (pick_edge sh cmds (Outputs g node) 0%float
          (PrimFloat.mul (rand_Float64 k) total), S k)
  else (None, k).

(** *** Paths through the animation graph *)

Definition cmd_targets (sh : sharedSprite) (name : string) : list nat :=
  map e_dst
    (List.filter (fun e => String.eqb (ed_cmd (edge_data sh e)) name)
       (g_edges (sh_anim sh))).

(** One round of the loop of [findPathForCmd].  [path[1:]] panics on the
    nil slice returned when there is no path, and so does
    [anim.Node(id)] for an id that is not a node. *)
Fixpoint findPath_loop (sh : sharedSprite) (cmd_names : list string)
    (from : nat) (node_path : list nat) : Res (list nat) :=
  match cmd_names with
  | [] => Done node_path
  | name :: rest =>
      let g := mkPathing sh from name in
      match snd (Dijkstra (pathing_graph g) [NumNodes (sh_anim sh)]
                   (cmd_targets sh name)) with
      | [] => Panic
      | _ :: ids =>
          if forallb (fun id => Nat.ltb id (NumNodes (sh_anim sh))) ids
          then let node_path' := node_path ++ ids in
               findPath_loop sh rest (List.last node_path' from) node_path'
          else Panic
      end
  end.

(** The result has length 0 when there was no path to add; it is then
    the nil slice. *)
Definition findPathForCmd (s : Sprite) (cmd : command) (from : nat)
  : Res (list nat) :=
  findPath_loop (shared s) (names cmd) from [].

(** The loop of [findPathForSyncedCmd] that follows unlabeled edges from
    the end of the path.  Each round marks a new node in [adds], so
    [NumNodes + 1] rounds are enough. *)
Fixpoint extend_loop (fuel : nat) (sh : sharedSprite) (tag : string)
    (adds : list nat) (tail : nat) (edge : option Edge) (extra : list nat)
    (k : nat) : Res (list nat * nat) :=
  match edge with
  | None => Done (extra, k)
  | Some e =>
      if existsb (Nat.eqb tail) adds then Done (extra, k)
      else match fuel with
           | O => Timeout
           | S fuel' =>
               let tail' := e_dst e in
               let extra' := extra ++ [tail'] in
               if String.eqb (Tag (sh_anim sh) tail' "sync") tag
               then Done (extra', k)
               else let '(edge', k') := selectAnEdge (sh_anim sh) sh tail' [""] k in
                    extend_loop fuel' sh tag (tail :: adds) tail' edge' extra' k'
           end
  end.

Definition findPathForSyncedCmd (w : World) (s : Sprite) (cmd : command)
    (from : nat) (k : nat) : Res (list nat * nat) :=
  do p <- findPathForCmd s cmd from;
  match p with
  | [] => Done (p, k)
  | _ =>
      match group cmd with
      | None => Panic
      | Some gid =>
          do cg <- get_group gid w;
          let sh := shared s in
          if existsb (fun n => String.eqb (Tag (sh_anim sh) n "sync") (sync_tag cg)) p
          then Done (p, k)
          else
            let tail := List.last p from in
            let '(edge, k1) := selectAnEdge (sh_anim sh) sh tail [""] k in
            do (extra, k2) <-
               extend_loop (S (NumNodes (sh_anim sh))) sh (sync_tag cg)
                 [] tail edge [] k1;
            if (Nat.ltb 0 (length extra))
               && String.eqb (Tag (sh_anim sh) (List.last extra tail) "sync")
                    (sync_tag cg)
            then Done (p ++ extra, k2)
            else Done (p, k2)
      end
  end.

(** *** Command intake *)

(** First loop of [baseCommand]: walks the state graph label by label
    without committing; [None] when a label has no edge to follow. *)
Fixpoint probe (sh : sharedSprite) (node : nat) (cmd_names : list string)
    (k : nat) : option nat * nat :=
  match cmd_names with
  | [] => (Some node, k)
  | name :: rest =>
      match selectAnEdge (sh_state sh) sh node [name] k with
      | (None, k') => (None, k')
      | (Some e, k') => probe sh (e_dst e) rest k'
      end
  end.

(** Second loop: the walk is made again, this time on the sprite. *)
Fixpoint commit (s : Sprite) (cmd_names : list string) (k : nat)
  : Res (Sprite * nat) :=
  match cmd_names with
  | [] => Done (s, k)
  | name :: rest =>
      let sh := shared s in
      match selectAnEdge (sh_state sh) sh (state_node s) [name] k with
      | (None, _) => Panic
      | (Some e, k') =>
          let n := Z.of_nat (sh_facings sh) in
          if n =? 0 then Panic
          else
            let face := ed_facing (edge_data sh e) in
            let sf := rem64 (add64 (add64 (state_facing s) face) n) n in
            commit (set_state_facing (set_state_node s (e_dst e)) sf) rest k'
      end
  end.

(** Third loop: unlabeled state edges are followed until there is none.
    The Go loop has no bound of its own. *)
Fixpoint settle (fuel : nat) (s : Sprite) (k : nat) : Res (Sprite * nat) :=
  let sh := shared s in
  match selectAnEdge (sh_state sh) sh (state_node s) [""] k with
  | (None, k') => Done (s, k')
  | (Some e, k') =>
      match fuel with
      | O => Timeout
      | S fuel' => settle fuel' (set_state_node s (e_dst e)) k'
      end
  end.

Definition baseCommand (fuel : nat) (sid : nat) (cmd : command) (w : World)
  : Res (bool * World) :=
  do s <- get_sprite sid w;
  match probe (shared s) (state_node s) (names cmd) (w_rand w) with
  | (None, k) => Done (false, set_rand k w)
  | (Some _, k) =>
      do (s1, k1) <- commit s (names cmd) k;
      do (s2, k2) <- settle fuel s1 k1;
      Done (true,
            set_rand k2
              (put_sprite sid (set_pending_cmds s2 (pending_cmds s2 ++ [cmd])) w))
  end.

Definition Command (fuel : nat) (sid : nat) (cmd : string) (w : World) : Res World :=
  do (_, w') <- baseCommand fuel sid (mkCommand [cmd] None) w;
  Done w'.

Definition CommandN (fuel : nat) (sid : nat) (cmds : list string) (w : World)
  : Res World :=
  do (_, w') <- baseCommand fuel sid (mkCommand cmds None) w;
  Done w'.

Fixpoint CommandSync_loop (fuel : nat) (gid : nat) (ss : list nat)
    (cmds : list (list string)) (w : World) : Res World :=
  match ss with
  | [] => Done w
  | sid :: ss' =>
      match cmds with
      | [] => Panic
      | c :: cmds' =>
          do (ok, w1) <- baseCommand fuel sid (mkCommand c (Some gid)) w;
          do w2 <-
             (if ok : bool
              then do cg <- get_group gid w1;
                   Done (put_group gid
                           (mkGroup (sync_tag cg) (sprites cg ++ [sid])
                              (was_ready cg) (eta cg) (paths cg)) w1)
              else Done w1);
          CommandSync_loop fuel gid ss' cmds' w2
      end
  end.

(** The group is a fresh object; the commands queued on the sprites all
    point to it. *)
Definition CommandSync (fuel : nat) (ss : list nat) (cmds : list (list string))
    (tag : string) (w : World) : Res World :=
  let gid := length (w_groups w) in
  CommandSync_loop fuel gid ss cmds
    (mkWorld (w_sprites w) (w_groups w ++ [mkGroup tag [] false ∅ ∅])
       (w_rand w) (w_trace w)).

(** *** The barrier of a command group *)

(** First loop of [ready]: every member has an empty path and this group
    at the head of its pending commands. *)
Fixpoint all_waiting (gid : nat) (members : list nat) (w : World) : Res bool :=
  match members with
  | [] => Done true
  | sid :: rest =>
      do sp <- get_sprite sid w;
      if Nat.ltb 0 (length (path sp)) then Done false
      else match pending_cmds sp with
           | [] => Done false
           | c :: _ =>
               match group c with
               | Some g' => if Nat.eqb g' gid then all_waiting gid rest w
                            else Done false
               | None => Done false
               end
           end
  end.

(** The time a member needs to reach the sync node: the loop over [path]
    inside the second loop of [ready].  [first] tells step 0 apart and
    [prev] is the node the step leaves. *)
Fixpoint presync (sp : Sprite) (tag : string) (first : bool) (prev : nat)
    (p : list nat) (total : Z) : Z :=
  match p with
  | [] => total
  | node :: rest =>
      if String.eqb (Tag (sh_anim (shared sp)) node "sync") tag then total
      else
        let total' :=
          if connectedByGroupEdge (sh_anim (shared sp)) prev node then total
          else if first then add64 total (togo sp)
               else add64 total (nd_time (node_data (shared sp) node)) in
        presync sp tag false node rest total'
  end.

(** Second loop: paths, times and their maximum. *)
Fixpoint plan (tag : string) (members : list nat) (w : World)
    (e : gmap nat Z) (ps : gmap nat (list nat)) (max : Z) (k : nat)
  : Res (gmap nat Z * gmap nat (list nat) * Z * nat) :=
  match members with
  | [] => Done (e, ps, max, k)
  | sid :: rest =>
      do sp <- get_sprite sid w;
      match pending_cmds sp with
      | [] => Panic
      | c :: _ =>
          do (p, k') <- findPathForSyncedCmd w sp c (anim_node sp) k;
          let total := presync sp tag true (anim_node sp) p 0 in
          plan tag rest w (<[sid := total]> e) (<[sid := p]> ps)
            (if max <? total then total else max) k'
      end
  end.

(** Third loop: [cg.eta[sp] = max - cg.eta[sp]]. *)
Fixpoint offsets (max : Z) (members : list nat) (e : gmap nat Z) : gmap nat Z :=
  match members with
  | [] => e
  | sid :: rest =>
      offsets max rest (<[sid := sub64 max (default 0 (e !! sid))]> e)
  end.

Definition ready (gid : nat) (w : World) : Res (bool * World) :=
  do cg <- get_group gid w;
  if was_ready cg then Done (true, w)
  else
    do ok <- all_waiting gid (sprites cg) w;
    if ok : bool then
      do (e, ps, max, k) <- plan (sync_tag cg) (sprites cg) w ∅ ∅ 0 (w_rand w);
      Done (true,
            set_rand k
              (put_group gid
                 (mkGroup (sync_tag cg) (sprites cg) true
                    (offsets max (sprites cg) e) ps) w))
    else Done (false, w).

(** *** Snapshots *)

Record SpriteState := mkSpriteState {
  ss_Facing : Z;
  ss_State_node_id : Z;
  ss_Anim_node_id : Z
}.

Definition GetSpriteState (s : Sprite) : SpriteState :=
  mkSpriteState (facing s) (Z.of_nat (state_node s)) (Z.of_nat (anim_node s)).

(** [graph.Node(id)] for an integer that need not be a node. *)
Definition node_at (g : Graph) (id : Z) : Res nat :=
  if (0 <=? id) && (id <? Z.of_nat (NumNodes g)) then Done (Z.to_nat id)
  else Panic.

Definition SetSpriteState (sid : nat) (state : SpriteState) (w : World)
  : Res (option string * World) :=
  do s <- get_sprite sid w;
  if Nat.ltb 0 (length (waiters s))
  then Done (Some "Can't SetSpriteState while there are pending waiters.", w)
  else
    do (s1, ev) <-
       (if thinks s =? 0 then
          let s' := set_state_facing
                      (set_facing (set_prev_facing s (facing s)) (ss_Facing state))
                      (ss_Facing state) in
          if facing_ok (shared s) (ss_Facing state)
          then Done (s', [Load (ss_Facing state)]) else Panic
        else if negb (ss_Facing state =? facing s) then
          let s' := set_state_facing (set_facing s (ss_Facing state))
                      (ss_Facing state) in
          if facing_ok (shared s) (ss_Facing state)
          then Done (s', [Load (ss_Facing state)]) else Panic
        else Done (s, []));
    do a <- node_at (sh_anim (shared s)) (ss_Anim_node_id state);
    do st <- node_at (sh_state (shared s)) (ss_State_node_id state);
    let s2 := set_pending_cmds
                (set_path (set_state_node (set_anim_node s1 a) st) []) [] in
    Done (None, emit ev (put_sprite sid s2 w)).

(** *** Think *)

Definition applyPath (s : Sprite) (p : list nat) : Sprite :=
  set_path s (path s ++ p).

(** [Wait] up to the blocking receive: the waiter, whose channel is [id],
    is added to the list of the sprite. *)
Definition Wait (sid : nat) (id : nat) (states : option (list string))
    (w : World) : Res World :=
  do s <- get_sprite sid w;
  Done (put_sprite sid (set_waiters s (waiters s ++ [mkWaiter id states])) w).

Definition doTrigger (sid : nat) (s : Sprite) : list Event :=
  if trigger s
     && negb (String.eqb (Tag (sh_anim (shared s)) (anim_node s) "func") "")
  then [Trigger sid (Tag (sh_anim (shared s)) (anim_node s) "func")]
  else [].

(** The code run on the first call, and the count of calls. *)
Definition think_setup (sid : nat) (w : World) : Res World :=
  do s <- get_sprite sid w;
  do (s1, ev) <-
     (if thinks s =? 0 then
        if facing_ok (shared s) 0
        then Done (set_togo s (nd_time (node_data (shared s) (anim_node s))),
                   [Load 0])
        else Panic
      else Done (s, []));
  Done (emit ev (put_sprite sid (set_thinks s1 (add64 (thinks s1) 1)) w)).

(** The sends made for one waiter: one for each of its states that is the
    current AnimState. *)
Definition signal_waiter (anim_state : string) (wt : waiter) : waiter * list Event :=
  match wt_states wt with
  | None => (wt, [])
  | Some sts =>
      let hits := List.filter (String.eqb anim_state) sts in
      match hits with
      | [] => (wt, [])
      | _ => (mkWaiter (wt_id wt) None, map (fun _ => Signal (wt_id wt)) hits)
      end
  end.

(** Modelled from the spec: [algorithm.Choose] of util/algorithm, which is
    not among the sources.  It keeps, in order, the elements the
    predicate accepts; a resolved waiter is removed. *)
Definition Choose {A} (keep : A -> bool) (l : list A) : list A :=
  List.filter keep l.

(** The loop [for i := range s.waiters] of the deferred function: the
    number of rounds is fixed when the loop starts, while the list
    shrinks under it. *)
Fixpoint resolve_waiters (rounds i : nat) (anim_state : string)
    (ws : list waiter) (ev : list Event) : Res (list waiter * list Event) :=
  match rounds with
  | O => Done (ws, ev)
  | S rounds' =>
      match ws !! i with
      | None => Panic
      | Some wt =>
          let '(wt', ev') := signal_waiter anim_state wt in
          resolve_waiters rounds' (S i) anim_state
            (Choose (fun x => match wt_states x with Some _ => true | None => false end)
               (<[i := wt']> ws))
            (ev ++ ev')
      end
  end.

(** The deferred function of [Think]. *)
Definition check_waiters (sid : nat) (w : World) : Res World :=
  do s <- get_sprite sid w;
  if Nat.ltb 0 (NumPendingCmds s) then Done w
  else
    do (ws, ev) <- resolve_waiters (length (waiters s)) 0 (AnimState s) (waiters s) [];
    Done (emit ev (put_sprite sid (set_waiters s ws) w)).

(** Resolution of the head command when no path is in flight.  The local
    [path] of the Go code is [None] when it is nil. *)
Definition think_resolve (sid : nat) (dt : Z) (w : World) : Res World :=
  do s <- get_sprite sid w;
  match pending_cmds s, path s with
  | c :: cs, [] =>
      match group c with
      | None =>
          do p <- findPathForCmd s c (anim_node s);
          match p with
          | [] => Done w
          | _ => Done (put_sprite sid
                         (set_pending_cmds (applyPath s p) cs) w)
          end
      | Some gid =>
          do (ok, w1) <- ready gid w;
          if ok : bool then
            do cg <- get_group gid w1;
            let t := sub64 (default 0 (eta cg !! sid)) dt in
            do (s1, ev, p) <-
               (if t <=? 0 then
                  match default [] (paths cg !! sid) with
                  | [] => Panic
                  | n :: rest =>
                      let s' := set_anim_node s n in
                      Done (set_togo s' (nd_time (node_data (shared s') n)),
                            doTrigger sid s', Some rest)
                  end
                else Done (s, [], None));
            let w2 := put_group gid
                        (mkGroup (sync_tag cg) (sprites cg) (was_ready cg)
                           (<[sid := t]> (eta cg)) (paths cg)) w1 in
            match p with
            | Some rest =>
                Done (emit ev
                        (put_sprite sid
                           (set_pending_cmds (applyPath s1 rest) cs) w2))
            | None => Done (emit ev (put_sprite sid s1 w2))
            end
          else Done w1
      end
  | _, _ => Done w
  end.

(** A group edge from the current node to the next node of the path ends
    the current frame at once. *)
Definition think_short_circuit (s : Sprite) : Sprite :=
  match path s with
  | [] => s
  | next :: _ =>
      match Group (sh_anim (shared s)) (anim_node s) with
      | None => s
      | Some _ =>
          if existsb
               (fun e => negb (Nat.eqb (e_src e) (anim_node s))
                         && Nat.eqb (e_dst e) next)
               (GroupOutputs (sh_anim (shared s)) (anim_node s))
          then set_togo s 0 else s
      end
  end.

(** The branch [s.togo >= dt]. *)
Definition think_stay (s : Sprite) (dt : Z) : Res (Sprite * list Event) :=
  let s1 := set_togo s (sub64 (togo s) dt) in
  if negb (facing s1 =? prev_facing s1) then
    if facing_ok (shared s1) (prev_facing s1) && facing_ok (shared s1) (facing s1)
    then Done (set_prev_facing s1 (facing s1),
               [Unload (prev_facing s1); Load (facing s1)])
    else Panic
  else Done (s1, []).

(** The move to the next node, up to the recursive call. *)
Definition think_advance (sid : nat) (s : Sprite) (k : nat)
  : Res (Sprite * list Event * nat) :=
  let sh := shared s in
  let '(next, s1, k1) :=
    match path s with
    | n :: rest => (n, set_path s rest, k)
    | [] =>
        match selectAnEdge (sh_anim sh) sh (anim_node s) [""] k with
        | (Some e, k') => (e_dst e, s, k')
        | (None, k') => (anim_node s, s, k')
        end
    end in
  let face := ed_facing (edge_data_opt sh (edgeTo (sh_anim sh) (anim_node s1) next)) in
  do s2 <-
     (if negb (face =? 0) then
        let n := Z.of_nat (sh_facings sh) in
        if n =? 0 then Panic
        else Done (set_facing s1 (rem64 (add64 (add64 (facing s1) face) n) n))
      else Done s1);
  let s3 := set_anim_node s2 next in
  Done (set_togo s3 (nd_time (node_data sh next)), doTrigger sid s3, k1).

Fixpoint Think (fuel : nat) (sid : nat) (dt : Z) (w : World) : Res World :=
  match fuel with
  | O => Timeout
  | S fuel' =>
      do w1 <- think_setup sid w;
      if dt <? 0 then Done w1
      else
        do w2 <- think_resolve sid dt w1;
        do s <- get_sprite sid w2;
        let s := think_short_circuit s in
        if dt <=? togo s then
          do (s', ev) <- think_stay s dt;
          check_waiters sid (emit ev (put_sprite sid s' w2))
        else
          do (s', ev, k) <- think_advance sid s (w_rand w2);
          do w3 <- Think fuel' sid (sub64 dt (togo s))
                     (set_rand k (emit ev (put_sprite sid s' w2)));
          check_waiters sid w3
  end.

End Engine.

(** ** A sprite that walks

    The graph of the worked example: the start node "idle" lasts 100 ms, an
    edge labeled "walk" leads to "walking", which lasts 50 ms and carries a
    trigger. *)

Module Walk.

Definition walk_anim : Edge := mkEdge 0 0 1.
Definition walk_state : Edge := mkEdge 1 0 1.

Definition anim : Graph :=
  mkGraph
    [ mkNode "idle" [("time", "100"); ("mark", "start")] None [walk_anim] [walk_anim];
      mkNode "walking" [("time", "50"); ("func", "step")] None [] [] ]
    [ walk_anim ].

Definition state : Graph :=
  mkGraph
    [ mkNode "idle" [("mark", "start")] None [walk_state] [walk_state];
      mkNode "walking" [] None [] [] ]
    [ walk_state ].

Definition sh : sharedSprite :=
  mkShared anim state 0 0
    (<[0%nat := mkNodeData 100 "" "idle"]>
       (<[1%nat := mkNodeData 50 "" "walking"]> ∅))
    (<[0%nat := mkEdgeData 0 1%float "walk"]>
       (<[1%nat := mkEdgeData 0 1%float "walk"]> ∅))
    1.

Definition rnd (_ : nat) : float := 0.5%float.

(** The sprite as loaded, with a trigger function installed. *)
Definition sprite0 : Sprite :=
  mkSprite sh 0 0 true 0 0 0 0 0 [] [] [].

Definition w0 : World := mkWorld [sprite0] [] 0 [].

Definition run_Command (c : string) (w : Res World) : Res World :=
  do w' <- w; Command rnd 10 0 c w'.
Definition run_Think (dt : Z) (w : Res World) : Res World :=
  do w' <- w; Think rnd Algorithm.Dijkstra 10 0 dt w'.

(** The sprite is made the only member of a group whose command names no
    edge at all. *)
Definition grouped : Res World := CommandSync rnd 10 [0%nat] [[]] "go" w0.

(** What the outside sees of sprite 0. *)
Definition view (w : Res World)
  : option (string * string * Z * Z * nat * list nat * list Event) :=
  match w with
  | Done w' =>
      match w_sprites w' !! 0%nat with
      | Some s => Some (Anim s, State s, togo s, facing s,
                        NumPendingCmds s, path s, w_trace w')
      | None => None
      end
  | _ => None
  end.

End Walk.

(** ** A graph with groups

    From "a" the command "go" reaches "t" either through "m" (two edges) or
    through "c" and "d" (three edges), where "c" and "d" sit in two
    different groups, so that the edges leaving them lead out of a group. *)

Module Detour.

Definition a_c : Edge := mkEdge 0 0 2.
Definition c_d : Edge := mkEdge 1 2 4.
Definition d_t : Edge := mkEdge 2 4 6.
Definition a_m : Edge := mkEdge 3 0 5.
Definition m_t : Edge := mkEdge 4 5 6.

Definition anim : Graph :=
  mkGraph
    [ mkNode "a" [("mark", "start")] None [a_c; a_m] [a_c; a_m];
      mkNode "g1" [] None [] [];
      mkNode "c" [] (Some 1%nat) [c_d] [c_d];
      mkNode "g2" [] None [] [];
      mkNode "d" [] (Some 3%nat) [d_t] [d_t];
      mkNode "m" [] None [m_t] [m_t];
      mkNode "t" [] None [] [] ]
    [ a_c; c_d; d_t; a_m; m_t ].

Definition state : Graph :=
  mkGraph [ mkNode "s" [("mark", "start")] None [] [] ] [].

Definition free : edgeData := mkEdgeData 0 1%float "".
Definition go : edgeData := mkEdgeData 0 1%float "go".

Definition sh : sharedSprite :=
  mkShared anim state 0 0 ∅
    (<[0%nat := free]> (<[1%nat := free]> (<[2%nat := go]>
       (<[3%nat := free]> (<[4%nat := go]> ∅)))))
    1.

(** The graph searched for "go" from "a". *)
Definition pg : pathingGraph := mkPathing sh 0 "go".

(** The costs as the specification words them: an eligible edge that
    leaves the group of its node is free, any other costs one. *)
Fixpoint spec_scan (p : pathingGraph) (n : nat) (es : list Edge)
  : list nat * list float :=
  match es with
  | [] => ([], [])
  | e :: rest =>
      let '(adj, cost) := spec_scan p n rest in
      if eligible p e
      then (e_dst e :: adj,
            (if leaves_group (sh_anim (pg_shared p)) n e then 0%float else 1%float)
              :: cost)
      else (adj, cost)
  end.

Definition spec_Adjacent (p : pathingGraph) (n : nat) : list nat * list float :=
  spec_scan p (pathing_node p n)
    (GroupOutputs (sh_anim (pg_shared p)) (pathing_node p n)).

Definition spec_graph (p : pathingGraph) : AlgoGraph :=
  mkAlgoGraph (pathing_NumVertex p) (spec_Adjacent p).

End Detour.

(** ** Two sprites and a barrier

    One sprite attacks, the other defends; both commands are synchronised
    on the nodes tagged "hit". *)

Module Duel.

Definition e_attack : Edge := mkEdge 0 0 1.
Definition e_hold : Edge := mkEdge 1 1 2.
Definition e_strike : Edge := mkEdge 2 2 3.
Definition e_defend : Edge := mkEdge 3 0 4.
Definition e_block : Edge := mkEdge 4 4 5.
Definition s_attack : Edge := mkEdge 10 0 1.
Definition s_defend : Edge := mkEdge 11 0 2.

Definition anim : Graph :=
  mkGraph
    [ mkNode "idle" [("mark", "start")] None [e_attack; e_defend] [e_attack; e_defend];
      mkNode "windup" [("time", "30")] None [e_hold] [e_hold];
      mkNode "hold" [("time", "20")] None [e_strike] [e_strike];
      mkNode "strike" [("time", "50"); ("sync", "hit")] None [] [];
      mkNode "brace" [("time", "10")] None [e_block] [e_block];
      mkNode "block" [("time", "50"); ("sync", "hit")] None [] [] ]
    [ e_attack; e_hold; e_strike; e_defend; e_block ].

Definition state : Graph :=
  mkGraph
    [ mkNode "ready" [("mark", "start")] None [s_attack; s_defend] [s_attack; s_defend];
      mkNode "attacking" [] None [] [];
      mkNode "defending" [] None [] [] ]
    [ s_attack; s_defend ].

Definition sh : sharedSprite :=
  mkShared anim state 0 0
    (<[0%nat := mkNodeData 100 "" "ready"]>
     (<[1%nat := mkNodeData 30 "" "attacking"]>
      (<[2%nat := mkNodeData 20 "" "attacking"]>
       (<[3%nat := mkNodeData 50 "hit" "attacking"]>
        (<[4%nat := mkNodeData 10 "" "defending"]>
         (<[5%nat := mkNodeData 50 "hit" "defending"]> ∅))))))
    (<[0%nat := mkEdgeData 0 1%float "attack"]>
     (<[1%nat := mkEdgeData 0 1%float ""]>
      (<[2%nat := mkEdgeData 0 1%float ""]>
       (<[3%nat := mkEdgeData 0 1%float "defend"]>
        (<[4%nat := mkEdgeData 0 1%float ""]>
         (<[10%nat := mkEdgeData 0 1%float "attack"]>
          (<[11%nat := mkEdgeData 0 1%float "defend"]> ∅)))))))
    1.

Definition rnd (_ : nat) : float := 0.5%float.

(** The attacker has 100 ms left on "idle", the defender 40 ms; the
    group of their commands is object 0. *)
Definition attacker : Sprite :=
  mkSprite sh 0 1 false 1 0 0 0 100 [] [mkCommand ["attack"] (Some 0%nat)] [].
Definition defender : Sprite :=
  mkSprite sh 0 2 false 2 0 0 0 40 [] [mkCommand ["defend"] (Some 0%nat)] [].
Definition party : commandGroup := mkGroup "hit" [0%nat; 1%nat] false ∅ ∅.

Definition w0 : World :=
  mkWorld [attacker; defender] [party] 4 [Load 0; Load 0].


(** The world after the call of [ready] that makes the group ready. *)
Definition w1 : World :=
  match ready rnd Algorithm.Dijkstra 0 w0 with
  | Done (_, w) => w
  | _ => w0
  end.

End Duel.

(** ** Notions used to state the properties *)

(** What the stages of Think keep of a sprite: its graphs, its state node
    and its facing. *)
Definition stable (s s' : Sprite) : Prop :=
  shared s' = shared s /\ state_node s' = state_node s /\ facing s' = facing s.








(** ** Further functions of the package *)

(** [getStartNode]: the first node marked as the start node, nil when
    there is none. *)
Definition getStartNode (g : Graph) : option nat :=
  List.find (fun i => String.eqb (Tag g i "mark") "start") (seq 0 (NumNodes g)).

(** [animAlgoGraph], the graph used to decide which frames stay in texture
    memory.  [ParseFloat] is [strconv.ParseFloat(_, 64)], [None] standing
    for an error. *)
Definition defaultFrameTime : float := 100%float.

Definition animAlgo_delay (ParseFloat : string -> option float)
    (g : Graph) (n : nat) : float :=
  if String.eqb (Tag g n "time") "" then defaultFrameTime
  else match ParseFloat (Tag g n "time") with
       | Some t => t
       | None => defaultFrameTime
       end.

Fixpoint animAlgo_scan (g : Graph) (n : nat) (delay : float) (es : list Edge)
  : list nat * list float :=
  match es with
  | [] => ([], [])
  | e :: rest =>
      let '(adj, cost) := animAlgo_scan g n delay rest in
      (e_dst e :: adj,
       (if leaves_group g n e then 0%float else delay) :: cost)
  end.

Definition animAlgo_Adjacent (ParseFloat : string -> option float)
    (g : Graph) (n : nat) : list nat * list float :=
  animAlgo_scan g n (animAlgo_delay ParseFloat g n) (GroupOutputs g n).

Definition animAlgo_graph (ParseFloat : string -> option float) (g : Graph)
  : AlgoGraph :=
  mkAlgoGraph (NumNodes g) (animAlgo_Adjacent ParseFloat g).

(** What a command leaves alone: everything but the state node, the state
    facing and the queue of pending commands. *)
Definition anim_untouched (s s' : Sprite) : Prop :=
  shared s' = shared s /\ anim_node s' = anim_node s /\ trigger s' = trigger s
  /\ thinks s' = thinks s /\ facing s' = facing s
  /\ prev_facing s' = prev_facing s /\ togo s' = togo s
  /\ path s' = path s /\ waiters s' = waiters s.

(** What Think leaves of the command state of a sprite: its graphs, its
    state node and state facing, its trigger; pending commands are only
    taken from the head of the queue. *)
Definition head_consumed (s s' : Sprite) : Prop :=
  shared s' = shared s /\ state_node s' = state_node s
  /\ state_facing s' = state_facing s /\ trigger s' = trigger s
  /\ exists done, pending_cmds s = done ++ pending_cmds s'.

(** What Think leaves of a group: its tag and members, and, once it is
    ready, that it is ready and the paths it stores. *)
Definition group_kept (cg cg' : commandGroup) : Prop :=
  sync_tag cg' = sync_tag cg /\ sprites cg' = sprites cg
  /\ (was_ready cg = true -> was_ready cg' = true /\ paths cg' = paths cg).

Definition think_frame (sid : nat) (w w' : World) : Prop :=
  length (w_sprites w') = length (w_sprites w)
  /\ (forall sid', sid' <> sid -> w_sprites w' !! sid' = w_sprites w !! sid')
  /\ (forall s, w_sprites w !! sid = Some s ->
        exists s', w_sprites w' !! sid = Some s' /\ head_consumed s s')
  /\ length (w_groups w') = length (w_groups w)
  /\ (forall g cg, w_groups w !! g = Some cg ->
        exists cg', w_groups w' !! g = Some cg' /\ group_kept cg cg')
  /\ exists ev, w_trace w' = w_trace w ++ ev.

(** Nodes that exist.  [wf_shared]: the outgoing edges of the animation
    graph end on nodes of the graph (they are pointers to nodes). *)
Definition valid_node (sh : sharedSprite) (n : nat) : Prop :=
  (n < NumNodes (sh_anim sh))%nat.

Definition wf_shared (sh : sharedSprite) : Prop :=
  forall i e, In e (Outputs (sh_anim sh) i) -> valid_node sh (e_dst e).

Definition sprite_ok (s : Sprite) : Prop :=
  wf_shared (shared s) /\ valid_node (shared s) (anim_node s)
  /\ Forall (valid_node (shared s)) (path s).

(** Every sprite is on a node of its graph, with a path of such nodes, and
    the paths that the groups store for a sprite are paths of its graph. *)
Definition store_ok (sps : list Sprite) (gs : list commandGroup) : Prop :=
  (forall sid s, sps !! sid = Some s -> sprite_ok s)
  /\ (forall g cg sid p s,
        gs !! g = Some cg -> paths cg !! sid = Some p -> sps !! sid = Some s ->
        Forall (valid_node (shared s)) p).

Definition world_ok (w : World) : Prop := store_ok (w_sprites w) (w_groups w).

(** * Properties *)

(** ** The worked example: walking *)

(** C4, as stated: after Command("walk") and Think(30), the call Think(70)
    does not move the sprite; it is still on "idle", with no time left, and
    no trigger has fired. *)
Lemma walk_think70_stays_on_idle :
  Walk.view (Walk.run_Think 70 (Walk.run_Think 30
     (Walk.run_Command "walk" (Done Walk.w0))))
  = Some ("idle", "walking", 0, 0, 0%nat, [1%nat], [Load 0]).
Proof. vm_compute. reflexivity. Qed.

(** C4, amended: after Command("walk"), Think(30) leaves the sprite on
    "idle" with togo = 70 and the path to "walking" queued; a following
    Think(70) uses up the frame exactly and leaves the sprite on "idle" with
    togo = 0; the sprite moves on only when the step exceeds the time left:
    Think(71) in place of Think(70) ends on "walking" with togo = 49, and
    Think(1) after Think(70) does the same; the trigger tagged on "walking"
    fires on that move. *)
Theorem walk_example :
  Walk.view (Walk.run_Command "walk" (Done Walk.w0))
    = Some ("idle", "walking", 0, 0, 1%nat, [], [])
  /\ Walk.view (Walk.run_Think 30 (Walk.run_Command "walk" (Done Walk.w0)))
    = Some ("idle", "walking", 70, 0, 0%nat, [1%nat], [Load 0])
  /\ Walk.view (Walk.run_Think 70 (Walk.run_Think 30
        (Walk.run_Command "walk" (Done Walk.w0))))
    = Some ("idle", "walking", 0, 0, 0%nat, [1%nat], [Load 0])
  /\ Walk.view (Walk.run_Think 71 (Walk.run_Think 30
        (Walk.run_Command "walk" (Done Walk.w0))))
    = Some ("walking", "walking", 49, 0, 0%nat, [], [Load 0; Trigger 0 "step"])
  /\ Walk.view (Walk.run_Think 1 (Walk.run_Think 70 (Walk.run_Think 30
        (Walk.run_Command "walk" (Done Walk.w0)))))
    = Some ("walking", "walking", 49, 0, 0%nat, [], [Load 0; Trigger 0 "step"]).
Proof. repeat split; vm_compute; reflexivity. Qed.

(** ** Helper lemmas on the world *)

Section WorldFacts.

Lemma get_sprite_Some sid w s :
  w_sprites w !! sid = Some s -> get_sprite sid w = Done s.
Proof. intros H. unfold get_sprite. rewrite H. reflexivity. Qed.

Lemma get_sprite_Done sid w s :
  get_sprite sid w = Done s -> w_sprites w !! sid = Some s.
Proof.
  unfold get_sprite. destruct (w_sprites w !! sid); intros H; inversion H.
  reflexivity.
Qed.

Lemma lookup_put_sprite sid s s' w :
  w_sprites w !! sid = Some s ->
  w_sprites (put_sprite sid s' w) !! sid = Some s'.
Proof.
  intros H. simpl. apply list_lookup_insert_eq.
  apply lookup_lt_Some in H. exact H.
Qed.

End WorldFacts.

(** ** The first call of Think and negative steps *)

Section ThinkEntry.

Variable rand_Float64 : nat -> float.
Variable Dijkstra : AlgoGraph -> list nat -> list nat -> float * list nat.

Lemma Think_negative fuel sid dt w :
  dt < 0 ->
  Think rand_Float64 Dijkstra (S fuel) sid dt w = think_setup sid w.
Proof.
  intros Hdt. simpl. destruct (think_setup sid w) as [w1| |]; simpl; auto.
  apply Z.ltb_lt in Hdt. rewrite Hdt. reflexivity.
Qed.

Lemma think_setup_first sid w s :
  w_sprites w !! sid = Some s ->
  thinks s = 0 ->
  (0 < sh_facings (shared s))%nat ->
  think_setup sid w
  = Done (emit [Load 0]
            (put_sprite sid
               (set_thinks
                  (set_togo s (nd_time (node_data (shared s) (anim_node s)))) 1)
               w)).
Proof.
  intros Hs Hth Hf. unfold think_setup. rewrite (get_sprite_Some _ _ _ Hs).
  simpl. rewrite Hth. simpl.
  assert (Hok : facing_ok (shared s) 0 = true).
  { unfold facing_ok. apply andb_true_intro. split.
    - reflexivity.
    - apply Z.ltb_lt. lia. }
  rewrite Hok. simpl. rewrite Hth. reflexivity.
Qed.

Lemma think_setup_later sid w s :
  w_sprites w !! sid = Some s ->
  thinks s <> 0 ->
  think_setup sid w
  = Done (emit [] (put_sprite sid (set_thinks s (add64 (thinks s) 1)) w)).
Proof.
  intros Hs Hth. unfold think_setup. rewrite (get_sprite_Some _ _ _ Hs).
  simpl. apply Z.eqb_neq in Hth. rewrite Hth. reflexivity.
Qed.

Lemma emit_nil w : emit [] w = w.
Proof. destruct w. unfold emit. simpl. rewrite app_nil_r. reflexivity. Qed.

End ThinkEntry.

(** C9, as stated: on a sprite that has never thought, Think(-5) changes
    togo (from 0 to the 100 ms of "idle") and loads facing 0. *)
Lemma negative_dt_first_call_sets_togo :
  Walk.view (Done Walk.w0) = Some ("idle", "idle", 0, 0, 0%nat, [], [])
  /\ Walk.view (Walk.run_Think (-5) (Done Walk.w0))
     = Some ("idle", "idle", 100, 0, 0%nat, [], [Load 0]).
Proof. split; vm_compute; reflexivity. Qed.

(** C9, amended: for every sprite whose think counter is not zero (every
    call but the first) and every negative dt, Think(dt) returns without
    panic and changes nothing but the think counter: animation node, state
    node, facing, togo, path, pending commands and waiters of the sprite are
    as before, and so are the other sprites, the groups and the trace of
    effects, so no waiter is signalled. *)
Theorem Think_negative_dt_noop
    (rand_Float64 : nat -> float)
    (Dijkstra : AlgoGraph -> list nat -> list nat -> float * list nat)
    (fuel sid : nat) (dt : Z) (w : World) (s : Sprite) :
  w_sprites w !! sid = Some s ->
  thinks s <> 0 ->
  dt < 0 ->
  exists s',
    Think rand_Float64 Dijkstra (S fuel) sid dt w = Done (put_sprite sid s' w)
    /\ anim_node s' = anim_node s /\ state_node s' = state_node s
    /\ facing s' = facing s /\ prev_facing s' = prev_facing s
    /\ state_facing s' = state_facing s /\ togo s' = togo s
    /\ path s' = path s /\ pending_cmds s' = pending_cmds s
    /\ waiters s' = waiters s /\ shared s' = shared s /\ trigger s' = trigger s
    /\ thinks s' = add64 (thinks s) 1.
Proof.
  intros Hs Hth Hdt.
  exists (set_thinks s (add64 (thinks s) 1)).
  rewrite Think_negative by exact Hdt.
  rewrite (think_setup_later sid w s Hs Hth), emit_nil.
  repeat split; reflexivity.
Qed.

Lemma Think_negative_dt_noop_witness :
  exists s',
    Think Walk.rnd Algorithm.Dijkstra 1 0 (-5)
      (mkWorld [set_thinks Walk.sprite0 1] [] 0 [])
    = Done (put_sprite 0 s' (mkWorld [set_thinks Walk.sprite0 1] [] 0 []))
    /\ anim_node s' = 0%nat /\ state_node s' = 0%nat
    /\ facing s' = 0 /\ prev_facing s' = 0
    /\ state_facing s' = 0 /\ togo s' = 0
    /\ path s' = [] /\ pending_cmds s' = []
    /\ waiters s' = [] /\ shared s' = Walk.sh /\ trigger s' = true
    /\ thinks s' = add64 1 1.
Proof.
  apply (Think_negative_dt_noop Walk.rnd Algorithm.Dijkstra 0 0 (-5)
           (mkWorld [set_thinks Walk.sprite0 1] [] 0 [])
           (set_thinks Walk.sprite0 1)).
  - reflexivity.
  - simpl. lia.
  - lia.
Defined.



(** ** Command rejection *)

Section Rejection.

Variable rand_Float64 : nat -> float.

Lemma total_weight_no_match sh cmds es t :
  (forall e, In e es -> in_cmds cmds (ed_cmd (edge_data sh e)) = false) ->
  total_weight sh cmds es t = t.
Proof.
  revert t. induction es as [|e es IH]; intros t H; simpl.
  - reflexivity.
  - rewrite (H e) by (left; reflexivity).
    apply IH. intros e' He'. apply H. right. exact He'.
Qed.

Lemma in_cmds_single name c :
  c <> name -> in_cmds [name] c = false.
Proof.
  intros H. unfold in_cmds. simpl.
  destruct (String.eqb_spec c name); [contradiction | reflexivity].
Qed.

(** Without an outgoing edge for the label no edge is chosen, and the
    random source is not consulted. *)
Lemma selectAnEdge_no_match g sh node name k :
  (forall e, In e (Outputs g node) -> ed_cmd (edge_data sh e) <> name) ->
  selectAnEdge rand_Float64 g sh node [name] k = (None, k).
Proof.
  intros H. unfold selectAnEdge.
  rewrite total_weight_no_match.
  - reflexivity.
  - intros e He. apply in_cmds_single. apply H. exact He.
Qed.

Lemma probe_app sh node pre rest k :
  probe rand_Float64 sh node (pre ++ rest) k
  = match probe rand_Float64 sh node pre k with
    | (Some n, k') => probe rand_Float64 sh n rest k'
    | (None, k') => (None, k')
    end.
Proof.
  revert node k. induction pre as [|name pre IH]; intros node k; simpl.
  - reflexivity.
  - destruct (selectAnEdge rand_Float64 (sh_state sh) sh node [name] k)
      as [[e|] k'].
    + apply IH.
    + reflexivity.
Qed.

End Rejection.

(** C6: when, for some requested label, the state node reached by the
    labels before it has no outgoing edge with that label, baseCommand
    returns false whatever comes after, and it leaves every sprite as it
    was: nothing is queued and the state node has not moved. *)
Theorem baseCommand_rejects
    (rand_Float64 : nat -> float) (fuel sid : nat) (cmd : command)
    (w : World) (s : Sprite) (pre post : list string) (name : string)
    (n k : nat) :
  w_sprites w !! sid = Some s ->
  names cmd = (pre ++ name :: post)%list ->
  probe rand_Float64 (shared s) (state_node s) pre (w_rand w) = (Some n, k) ->
  (forall e, In e (Outputs (sh_state (shared s)) n) ->
             ed_cmd (edge_data (shared s) e) <> name) ->
  exists w',
    baseCommand rand_Float64 fuel sid cmd w = Done (false, w')
    /\ w_sprites w' = w_sprites w
    /\ w_groups w' = w_groups w
    /\ w_trace w' = w_trace w
    /\ exists s', w_sprites w' !! sid = Some s'
         /\ length (pending_cmds s') = length (pending_cmds s)
         /\ pending_cmds s' = pending_cmds s
         /\ state_node s' = state_node s
         /\ state_facing s' = state_facing s.
Proof.
  intros Hs Hnames Hpre Hnone.
  exists (set_rand k w).
  split.
  - unfold baseCommand. rewrite (get_sprite_Some _ _ _ Hs). simpl.
    rewrite Hnames, probe_app, Hpre. simpl.
    rewrite (selectAnEdge_no_match rand_Float64 _ _ _ _ _ Hnone).
    reflexivity.
  - repeat split; try reflexivity.
    exists s. simpl. repeat split; auto.
Qed.

Lemma baseCommand_rejects_witness :
  exists w',
    baseCommand Walk.rnd 10 0 (mkCommand ["walk"; "fly"] None) Walk.w0
    = Done (false, w')
    /\ w_sprites w' = w_sprites Walk.w0
    /\ w_groups w' = w_groups Walk.w0
    /\ w_trace w' = w_trace Walk.w0
    /\ exists s', w_sprites w' !! 0%nat = Some s'
         /\ length (pending_cmds s') = length (pending_cmds Walk.sprite0)
         /\ pending_cmds s' = pending_cmds Walk.sprite0
         /\ state_node s' = state_node Walk.sprite0
         /\ state_facing s' = state_facing Walk.sprite0.
Proof.
  apply (baseCommand_rejects Walk.rnd 10 0 (mkCommand ["walk"; "fly"] None)
           Walk.w0 Walk.sprite0 ["walk"] [] "fly" 1 1).
  - reflexivity.
  - reflexivity.
  - vm_compute. reflexivity.
  - simpl. intros e He. destruct He.
Defined.

(** ** Snapshots *)

Lemma node_at_of_nat g n :
  (n < NumNodes g)%nat -> node_at g (Z.of_nat n) = Done n.
Proof.
  intros H. unfold node_at.
  replace (0 <=? Z.of_nat n) with true by (symmetry; apply Z.leb_le; lia).
  replace (Z.of_nat n <? Z.of_nat (NumNodes g)) with true
    by (symmetry; apply Z.ltb_lt; lia).
  simpl. rewrite Nat2Z.id. reflexivity.
Qed.

Lemma node_at_Done g id n :
  node_at g id = Done n -> Z.of_nat n = id /\ (n < NumNodes g)%nat.
Proof.
  unfold node_at.
  destruct (0 <=? id) eqn:H0; simpl; [|discriminate].
  destruct (id <? Z.of_nat (NumNodes g)) eqn:H1; [|discriminate].
  intros H. inversion H. apply Z.leb_le in H0. apply Z.ltb_lt in H1.
  split; lia.
Qed.

Lemma length_pos_nonempty {A} (l : list A) :
  Nat.ltb 0 (length l) = true <-> l <> [].
Proof.
  destruct l; simpl; split; intros H; try congruence; try reflexivity.
  discriminate.
Qed.

(** The facing and the nodes a successful restore leaves behind. *)
Lemma SetSpriteState_success sid state w s r w' :
  w_sprites w !! sid = Some s ->
  waiters s = [] ->
  SetSpriteState sid state w = Done (r, w') ->
  r = None
  /\ exists s', w_sprites w' !! sid = Some s'
       /\ pending_cmds s' = [] /\ path s' = []
       /\ facing s' = ss_Facing state
       /\ Z.of_nat (state_node s') = ss_State_node_id state
       /\ Z.of_nat (anim_node s') = ss_Anim_node_id state
       /\ (state_node s' < NumNodes (sh_state (shared s)))%nat
       /\ (anim_node s' < NumNodes (sh_anim (shared s)))%nat
       /\ waiters s' = [] /\ shared s' = shared s.
Proof.
  intros Hs Hw. unfold SetSpriteState.
  rewrite (get_sprite_Some _ _ _ Hs). simpl. rewrite Hw. simpl.
  destruct (thinks s =? 0) eqn:Hth.
  - destruct (facing_ok (shared s) (ss_Facing state)); simpl; [|discriminate].
    destruct (node_at (sh_anim (shared s)) (ss_Anim_node_id state))
      as [a| |] eqn:Ha; simpl; try discriminate.
    destruct (node_at (sh_state (shared s)) (ss_State_node_id state))
      as [st| |] eqn:Hst; simpl; try discriminate.
    intros H. inversion H. subst. split; [reflexivity|].
    apply node_at_Done in Ha, Hst.
    eexists. split; [apply (lookup_put_sprite _ _ _ _ Hs)|].
    simpl. intuition.
  - destruct (ss_Facing state =? facing s) eqn:Hf; simpl.
    + destruct (node_at (sh_anim (shared s)) (ss_Anim_node_id state))
        as [a| |] eqn:Ha; simpl; try discriminate.
      destruct (node_at (sh_state (shared s)) (ss_State_node_id state))
        as [st| |] eqn:Hst; simpl; try discriminate.
      intros H. inversion H. subst. split; [reflexivity|].
      apply node_at_Done in Ha, Hst. apply Z.eqb_eq in Hf.
      eexists. split; [apply (lookup_put_sprite _ _ _ _ Hs)|].
      simpl. intuition.
    + destruct (facing_ok (shared s) (ss_Facing state)); simpl; [|discriminate].
      destruct (node_at (sh_anim (shared s)) (ss_Anim_node_id state))
        as [a| |] eqn:Ha; simpl; try discriminate.
      destruct (node_at (sh_state (shared s)) (ss_State_node_id state))
        as [st| |] eqn:Hst; simpl; try discriminate.
      intros H. inversion H. subst. split; [reflexivity|].
      apply node_at_Done in Ha, Hst.
      eexists. split; [apply (lookup_put_sprite _ _ _ _ Hs)|].
      simpl. intuition.
Qed.

Lemma SetSpriteState_waiters sid state w s :
  w_sprites w !! sid = Some s ->
  waiters s <> [] ->
  SetSpriteState sid state w
  = Done (Some "Can't SetSpriteState while there are pending waiters.", w).
Proof.
  intros Hs Hw. unfold SetSpriteState.
  rewrite (get_sprite_Some _ _ _ Hs). simpl.
  apply length_pos_nonempty in Hw. rewrite Hw. reflexivity.
Qed.

Lemma SetSpriteState_valid sid state w s :
  w_sprites w !! sid = Some s ->
  waiters s = [] ->
  facing_ok (shared s) (ss_Facing state) = true ->
  0 <= ss_Anim_node_id state < Z.of_nat (NumNodes (sh_anim (shared s))) ->
  0 <= ss_State_node_id state < Z.of_nat (NumNodes (sh_state (shared s))) ->
  exists w', SetSpriteState sid state w = Done (None, w').
Proof.
  intros Hs Hw Hf Ha Hst. unfold SetSpriteState.
  rewrite (get_sprite_Some _ _ _ Hs). simpl. rewrite Hw. simpl.
  rewrite Hf.
  rewrite <- (Z2Nat.id (ss_Anim_node_id state)) by lia.
  rewrite <- (Z2Nat.id (ss_State_node_id state)) by lia.
  rewrite !node_at_of_nat by lia.
  destruct (thinks s =? 0); simpl; [eexists; reflexivity|].
  destruct (ss_Facing state =? facing s); simpl; eexists; reflexivity.
Qed.

(** C7: SetSpriteState returns an error exactly when the sprite has a
    waiter; the world it returns with the error is the one it was given;
    when it returns without error the pending commands and the path are
    empty and the facing, state node and animation node are those of the
    snapshot; and it does return without error when there is no waiter and
    the snapshot names a facing and nodes that exist. *)
Theorem SetSpriteState_error_iff_waiters
    (sid : nat) (state : SpriteState) (w : World) (s : Sprite) :
  w_sprites w !! sid = Some s ->
  ((exists msg w', SetSpriteState sid state w = Done (Some msg, w'))
     <-> waiters s <> [])
  /\ (forall msg w', SetSpriteState sid state w = Done (Some msg, w') -> w' = w)
  /\ (forall w', SetSpriteState sid state w = Done (None, w') ->
        exists s', w_sprites w' !! sid = Some s'
          /\ pending_cmds s' = [] /\ path s' = []
          /\ facing s' = ss_Facing state
          /\ Z.of_nat (state_node s') = ss_State_node_id state
          /\ Z.of_nat (anim_node s') = ss_Anim_node_id state)
  /\ (waiters s = [] ->
      facing_ok (shared s) (ss_Facing state) = true ->
      0 <= ss_Anim_node_id state < Z.of_nat (NumNodes (sh_anim (shared s))) ->
      0 <= ss_State_node_id state < Z.of_nat (NumNodes (sh_state (shared s))) ->
      exists w', SetSpriteState sid state w = Done (None, w')).
Proof.
  intros Hs.
  assert (Herr : forall msg w',
             SetSpriteState sid state w = Done (Some msg, w') -> waiters s <> []).
  { intros msg w' H Hw.
    destruct (SetSpriteState_success _ _ _ _ _ _ Hs Hw H) as [Hr _].
    discriminate. }
  split; [split|split; [|split]].
  - intros (msg & w' & H). exact (Herr msg w' H).
  - intros Hw. eexists. eexists. apply (SetSpriteState_waiters _ _ _ _ Hs Hw).
  - intros msg w' H. pose proof (Herr msg w' H) as Hw.
    rewrite (SetSpriteState_waiters _ _ _ _ Hs Hw) in H. inversion H. reflexivity.
  - intros w' H.
    destruct (waiters s) as [|wt ws] eqn:Hw.
    + destruct (SetSpriteState_success _ _ _ _ _ _ Hs Hw H)
        as (_ & s' & H1 & H2 & H3 & H4 & H5 & H6 & _).
      exists s'. repeat split; assumption.
    + rewrite (SetSpriteState_waiters sid state w s Hs) in H
        by (rewrite Hw; discriminate).
      discriminate.
  - intros Hw Hf Ha Hst. apply (SetSpriteState_valid _ _ _ _ Hs Hw Hf Ha Hst).
Qed.

Lemma SetSpriteState_error_iff_waiters_witness :
  ((exists msg w', SetSpriteState 0 (mkSpriteState 0 1 1) Walk.w0
                   = Done (Some msg, w'))
     <-> waiters Walk.sprite0 <> [])
  /\ (forall msg w', SetSpriteState 0 (mkSpriteState 0 1 1) Walk.w0
                     = Done (Some msg, w') -> w' = Walk.w0)
  /\ (forall w', SetSpriteState 0 (mkSpriteState 0 1 1) Walk.w0 = Done (None, w') ->
        exists s', w_sprites w' !! 0%nat = Some s'
          /\ pending_cmds s' = [] /\ path s' = []
          /\ facing s' = 0
          /\ Z.of_nat (state_node s') = 1
          /\ Z.of_nat (anim_node s') = 1)
  /\ (waiters Walk.sprite0 = [] ->
      facing_ok Walk.sh 0 = true ->
      0 <= 1 < Z.of_nat (NumNodes Walk.anim) ->
      0 <= 1 < Z.of_nat (NumNodes Walk.state) ->
      exists w', SetSpriteState 0 (mkSpriteState 0 1 1) Walk.w0 = Done (None, w')).
Proof.
  apply (SetSpriteState_error_iff_waiters 0 (mkSpriteState 0 1 1) Walk.w0 Walk.sprite0).
  reflexivity.
Defined.

(** C8: for a sprite without waiters, restoring the snapshot just taken
    succeeds and leaves the animation node, the state node and the facing
    as they were.  The sprite is one the engine can hold: its nodes are
    nodes of its graphs, and as long as it has never thought its facing is
    one of the facings. *)
Theorem snapshot_round_trip (sid : nat) (w : World) (s : Sprite) :
  w_sprites w !! sid = Some s ->
  waiters s = [] ->
  (anim_node s < NumNodes (sh_anim (shared s)))%nat ->
  (state_node s < NumNodes (sh_state (shared s)))%nat ->
  (thinks s = 0 -> facing_ok (shared s) (facing s) = true) ->
  exists w' s',
    SetSpriteState sid (GetSpriteState s) w = Done (None, w')
    /\ w_sprites w' !! sid = Some s'
    /\ anim_node s' = anim_node s
    /\ state_node s' = state_node s
    /\ facing s' = facing s.
Proof.
  intros Hs Hw Ha Hst Hf.
  assert (Hrun : exists w', SetSpriteState sid (GetSpriteState s) w = Done (None, w')).
  { unfold SetSpriteState. rewrite (get_sprite_Some _ _ _ Hs). simpl.
    rewrite Hw. simpl. rewrite !node_at_of_nat by assumption.
    destruct (thinks s =? 0) eqn:Hth.
    - apply Z.eqb_eq in Hth. rewrite (Hf Hth). simpl. eexists. reflexivity.
    - rewrite Z.eqb_refl. simpl. eexists. reflexivity. }
  destruct Hrun as [w' Hrun]. exists w'.
  destruct (SetSpriteState_success _ _ _ _ _ _ Hs Hw Hrun)
    as (_ & s' & H1 & _ & _ & H4 & H5 & H6 & _).
  exists s'. simpl in H4, H5, H6.
  repeat split; auto; lia.
Qed.

Lemma snapshot_round_trip_witness :
  exists w' s',
    SetSpriteState 0 (GetSpriteState Walk.sprite0) Walk.w0 = Done (None, w')
    /\ w_sprites w' !! 0%nat = Some s'
    /\ anim_node s' = anim_node Walk.sprite0
    /\ state_node s' = state_node Walk.sprite0
    /\ facing s' = facing Walk.sprite0.
Proof.
  apply (snapshot_round_trip 0 Walk.w0 Walk.sprite0).
  - reflexivity.
  - reflexivity.
  - vm_compute. lia.
  - vm_compute. lia.
  - intros _. reflexivity.
Defined.

(** ** The costs of the pathing graph *)

Lemma pathing_scan_spec p es :
  pathing_scan p es
  = (map e_dst (List.filter (eligible p) es),
     map (fun _ => 1%float) (List.filter (eligible p) es)).
Proof.
  induction es as [|e es IH]; simpl.
  - reflexivity.
  - rewrite IH. destruct (eligible p e); reflexivity.
Qed.

(** C1, as stated: in the graph searched for "go" from "a", the edge from
    "c" to "d" is eligible and leaves the group of "c", and its cost is 1,
    not 0. *)
Lemma pathing_group_exit_costs_one :
  eligible Detour.pg Detour.c_d = true
  /\ leaves_group Detour.anim 2 Detour.c_d = true
  /\ pathing_Adjacent Detour.pg 2 = ([4%nat], [1%float])
  /\ pathing_Adjacent Detour.pg 2 <> ([4%nat], [0%float]).
Proof.
  repeat split; try (vm_compute; reflexivity).
  vm_compute. intros H. inversion H.
Qed.

(** C1, amended: in the traversal graph built for findPath every eligible
    edge costs 1, whether or not it leaves a group: the neighbours of a
    vertex are the destinations of its eligible group-output edges and each
    of them comes with cost 1.  The search runs on these costs: in the graph
    of [Detour] it returns the path of two edges through "m", with weight 2,
    where costs with free group exits would have made it return the path of
    three edges through "c" and "d", with weight 1. *)
Theorem pathing_costs_uniform (p : pathingGraph) (n : nat) :
  fst (pathing_Adjacent p n)
    = map e_dst (List.filter (eligible p)
                   (GroupOutputs (sh_anim (pg_shared p)) (pathing_node p n)))
  /\ snd (pathing_Adjacent p n)
    = map (fun _ => 1%float)
        (List.filter (eligible p)
           (GroupOutputs (sh_anim (pg_shared p)) (pathing_node p n)))
  /\ Forall (fun c => c = 1%float) (snd (pathing_Adjacent p n))
  /\ length (fst (pathing_Adjacent p n)) = length (snd (pathing_Adjacent p n))
  /\ Algorithm.Dijkstra (pathing_graph Detour.pg) [7%nat] (cmd_targets Detour.sh "go")
     = (2%float, [7%nat; 5%nat; 6%nat])
  /\ Algorithm.Dijkstra (Detour.spec_graph Detour.pg) [7%nat] (cmd_targets Detour.sh "go")
     = (1%float, [7%nat; 2%nat; 4%nat; 6%nat])
  /\ findPathForCmd Algorithm.Dijkstra (newSprite Detour.sh) (mkCommand ["go"] None) 0
     = Done [5%nat; 6%nat].
Proof.
  unfold pathing_Adjacent. rewrite pathing_scan_spec. simpl.
  split; [reflexivity|]. split; [reflexivity|].
  split.
  { apply Forall_forall. intros c Hc.
    apply list_elem_of_In in Hc. apply in_map_iff in Hc.
    destruct Hc as (e & He & _). symmetry. exact He. }
  split; [rewrite !length_map; reflexivity|].
  repeat split; vm_compute; reflexivity.
Qed.

(** ** A grouped command without a path *)

(** C5: a sprite made the only member of a group by CommandSync with an
    empty list of names has that command at the head of its queue; the
    group becomes ready on the next Think, the countdown is 0 and the path
    stored for the sprite is empty, and Think panics on [path[0]] for any
    of the steps 0, 16 and 1000. *)
Theorem Think_panics_on_empty_group_path :
  (do w <- Walk.grouped;
   Done (map (fun s => (pending_cmds s, path s)) (w_sprites w),
         map (fun g => (sprites g, was_ready g)) (w_groups w)))
  = Done ([([mkCommand [] (Some 0%nat)], [])], [([0%nat], false)])
  /\ (do w <- Walk.grouped;
      do r <- ready Walk.rnd Algorithm.Dijkstra 0 w;
      do cg <- get_group 0 (snd r);
      Done (fst r, default 0 (eta cg !! 0%nat), default [] (paths cg !! 0%nat)))
     = Done (true, 0, [])
  /\ (do w <- Walk.grouped; Think Walk.rnd Algorithm.Dijkstra 10 0 0 w) = Panic
  /\ (do w <- Walk.grouped; Think Walk.rnd Algorithm.Dijkstra 10 0 16 w) = Panic
  /\ (do w <- Walk.grouped; Think Walk.rnd Algorithm.Dijkstra 10 0 1000 w) = Panic.
Proof. repeat split; vm_compute; reflexivity. Qed.

(** ** Think with a step of zero *)

Section ThinkZero.

Variable rand_Float64 : nat -> float.
Variable Dijkstra : AlgoGraph -> list nat -> list nat -> float * list nat.

Lemma stable_trans s1 s2 s3 : stable s1 s2 -> stable s2 s3 -> stable s1 s3.
Proof. unfold stable. intuition congruence. Qed.

Lemma Think_S fuel sid dt w :
  Think rand_Float64 Dijkstra (S fuel) sid dt w
  = do w1 <- think_setup sid w;
    if dt <? 0 then Done w1
    else
      do w2 <- think_resolve rand_Float64 Dijkstra sid dt w1;
      do s <- get_sprite sid w2;
      let s := think_short_circuit s in
      if dt <=? togo s then
        do (s', ev) <- think_stay s dt;
        check_waiters sid (emit ev (put_sprite sid s' w2))
      else
        do (s', ev, k) <- think_advance rand_Float64 sid s (w_rand w2);
        do w3 <- Think rand_Float64 Dijkstra fuel sid (sub64 dt (togo s))
                   (set_rand k (emit ev (put_sprite sid s' w2)));
        check_waiters sid w3.
Proof. reflexivity. Qed.

Lemma ready_sprites gid w b w' :
  ready rand_Float64 Dijkstra gid w = Done (b, w') -> w_sprites w' = w_sprites w.
Proof.
  unfold ready. destruct (get_group gid w) as [cg| |]; simpl; try discriminate.
  destruct (was_ready cg).
  { intros H. inversion H. reflexivity. }
  destruct (all_waiting gid (sprites cg) w) as [ok| |]; simpl; try discriminate.
  destruct ok.
  - destruct (plan rand_Float64 Dijkstra (sync_tag cg) (sprites cg) w ∅ ∅ 0 (w_rand w))
      as [[[[e ps] mx] k]| |]; simpl; try discriminate.
    intros H. inversion H. reflexivity.
  - intros H. inversion H. reflexivity.
Qed.

Lemma think_setup_inv sid w s w1 :
  w_sprites w !! sid = Some s ->
  think_setup sid w = Done w1 ->
  exists s1, w_sprites w1 !! sid = Some s1 /\ stable s s1
    /\ anim_node s1 = anim_node s /\ pending_cmds s1 = pending_cmds s
    /\ path s1 = path s /\ waiters s1 = waiters s
    /\ prev_facing s1 = prev_facing s
    /\ (togo s1 = togo s
        \/ togo s1 = nd_time (node_data (shared s) (anim_node s))).
Proof.
  intros Hs. unfold think_setup. rewrite (get_sprite_Some _ _ _ Hs). simpl.
  destruct (thinks s =? 0).
  - destruct (facing_ok (shared s) 0); simpl; [|discriminate].
    intros H. inversion H. subst. eexists.
    split; [apply (lookup_put_sprite _ _ _ _ Hs)|].
    simpl. repeat split. right. reflexivity.
  - simpl. intros H. inversion H. subst. eexists.
    split; [apply (lookup_put_sprite _ _ _ _ Hs)|].
    simpl. repeat split. left. reflexivity.
Qed.

Lemma think_resolve_idle sid dt w s :
  w_sprites w !! sid = Some s ->
  pending_cmds s = [] \/ path s <> [] ->
  think_resolve rand_Float64 Dijkstra sid dt w = Done w.
Proof.
  intros Hs H. unfold think_resolve. rewrite (get_sprite_Some _ _ _ Hs). simpl.
  destruct H as [H|H].
  - rewrite H. reflexivity.
  - destruct (pending_cmds s); [reflexivity|].
    destruct (path s); [contradiction|reflexivity].
Qed.

Lemma think_resolve_inv sid dt w s w2 :
  w_sprites w !! sid = Some s ->
  think_resolve rand_Float64 Dijkstra sid dt w = Done w2 ->
  exists s2, w_sprites w2 !! sid = Some s2 /\ stable s s2
    /\ waiters s2 = waiters s /\ prev_facing s2 = prev_facing s
    /\ (length (pending_cmds s2) <= length (pending_cmds s))%nat
    /\ (togo s2 = togo s \/ exists n, togo s2 = nd_time (node_data (shared s) n)).
Proof.
  intros Hs. unfold think_resolve. rewrite (get_sprite_Some _ _ _ Hs). simpl.
  assert (Hsame : Done w = Done w2 ->
    exists s2, w_sprites w2 !! sid = Some s2 /\ stable s s2
      /\ waiters s2 = waiters s /\ prev_facing s2 = prev_facing s
      /\ (length (pending_cmds s2) <= length (pending_cmds s))%nat
      /\ (togo s2 = togo s \/ exists n, togo s2 = nd_time (node_data (shared s) n))).
  { intros H. inversion H. subst. exists s. repeat split; auto; try (rewrite ?Hp; simpl; lia). }
  destruct (pending_cmds s) as [|c cs] eqn:Hp; [exact Hsame|].
  destruct (path s) as [|x xs] eqn:Hpath; [|exact Hsame].
  destruct (group c) as [gid|].
  - destruct (ready rand_Float64 Dijkstra gid w) as [[ok w1]| |] eqn:Hr;
      simpl; try discriminate.
    pose proof (ready_sprites _ _ _ _ Hr) as Hsp.
    assert (Hs1 : w_sprites w1 !! sid = Some s) by (rewrite Hsp; exact Hs).
    destruct ok.
    + destruct (get_group gid w1) as [cg| |]; simpl; try discriminate.
      destruct (sub64 (default 0 (eta cg !! sid)) dt <=? 0).
      * destruct (default [] (paths cg !! sid)) as [|n rest]; simpl; [discriminate|].
        intros H. inversion H. subst. eexists.
        split; [simpl; apply list_lookup_insert_eq;
                apply lookup_lt_Some in Hs1; exact Hs1|].
        simpl. repeat split; auto; try (rewrite ?Hp; simpl; lia).
        right. exists n. reflexivity.
      * simpl. intros H. inversion H. subst. exists s.
        split; [simpl; apply list_lookup_insert_eq;
                apply lookup_lt_Some in Hs1; exact Hs1|].
        repeat split; auto; try (rewrite ?Hp; simpl; lia).
    + intros H. inversion H. subst. exists s. repeat split; auto; try (rewrite ?Hp; simpl; lia).
  - destruct (findPathForCmd Dijkstra s c (anim_node s)) as [p| |];
      simpl; try discriminate.
    destruct p as [|n p].
    + intros H. inversion H. subst. exists s. repeat split; auto; try (rewrite ?Hp; simpl; lia).
    + intros H. inversion H. subst. eexists.
      split; [apply (lookup_put_sprite _ _ _ _ Hs)|].
      simpl. repeat split; auto; try (rewrite ?Hp; simpl; lia).
Qed.

Lemma think_short_circuit_inv s :
  stable s (think_short_circuit s)
  /\ anim_node (think_short_circuit s) = anim_node s
  /\ pending_cmds (think_short_circuit s) = pending_cmds s
  /\ path (think_short_circuit s) = path s
  /\ waiters (think_short_circuit s) = waiters s
  /\ prev_facing (think_short_circuit s) = prev_facing s
  /\ (togo (think_short_circuit s) = togo s \/ togo (think_short_circuit s) = 0).
Proof.
  unfold think_short_circuit.
  repeat match goal with
         | |- context [match ?x with _ => _ end] => destruct x eqn:?
         end;
    simpl; repeat split; auto; congruence.
Qed.

Lemma think_stay_inv s dt s' ev :
  think_stay s dt = Done (s', ev) ->
  stable s s' /\ anim_node s' = anim_node s
  /\ pending_cmds s' = pending_cmds s /\ path s' = path s
  /\ waiters s' = waiters s.
Proof.
  unfold think_stay. simpl.
  destruct (negb (facing s =? prev_facing s)).
  - destruct (facing_ok (shared s) (prev_facing s) && facing_ok (shared s) (facing s));
      [|discriminate].
    intros H. inversion H. repeat split.
  - intros H. inversion H. repeat split.
Qed.

Lemma check_waiters_inv sid w s w' :
  w_sprites w !! sid = Some s ->
  check_waiters sid w = Done w' ->
  exists s', w_sprites w' !! sid = Some s' /\ stable s s'
    /\ anim_node s' = anim_node s /\ pending_cmds s' = pending_cmds s
    /\ path s' = path s.
Proof.
  intros Hs. unfold check_waiters. rewrite (get_sprite_Some _ _ _ Hs). simpl.
  destruct (Nat.ltb 0 (NumPendingCmds s)).
  - intros H. inversion H. subst. exists s. repeat split; auto.
  - destruct (resolve_waiters _ _ _ _ _) as [[ws ev]| |]; simpl; try discriminate.
    intros H. inversion H. subst. eexists.
    split; [apply (lookup_put_sprite _ _ _ _ Hs)|]. repeat split.
Qed.

(** With a step of zero and time left on the frame the sprite stays. *)
Lemma Think_zero_stays fuel sid w s :
  w_sprites w !! sid = Some s ->
  (forall n, 0 <= nd_time (node_data (shared s) n)) ->
  0 <= togo s ->
  Think rand_Float64 Dijkstra (S fuel) sid 0 w
  = do w1 <- think_setup sid w;
    do w2 <- think_resolve rand_Float64 Dijkstra sid 0 w1;
    do s2 <- get_sprite sid w2;
    do (s', ev) <- think_stay (think_short_circuit s2) 0;
    check_waiters sid (emit ev (put_sprite sid s' w2)).
Proof.
  intros Hs Htimes Htogo. rewrite Think_S.
  destruct (think_setup sid w) as [w1| |] eqn:E1; simpl; try reflexivity.
  destruct (think_setup_inv _ _ _ _ Hs E1)
    as (s1 & Hs1 & (Hsh1 & _) & Ha1 & _ & _ & _ & _ & Ht1).
  destruct (think_resolve rand_Float64 Dijkstra sid 0 w1) as [w2| |] eqn:E2;
    simpl; try reflexivity.
  destruct (think_resolve_inv _ _ _ _ _ Hs1 E2)
    as (s2 & Hs2 & _ & _ & _ & _ & Ht2).
  rewrite (get_sprite_Some _ _ _ Hs2). simpl.
  assert (H0 : 0 <= togo (think_short_circuit s2)).
  { assert (0 <= togo s1).
    { destruct Ht1 as [-> | ->]; [exact Htogo | apply Htimes]. }
    assert (0 <= togo s2).
    { destruct Ht2 as [-> | [n ->]]; [assumption|]. rewrite Hsh1. apply Htimes. }
    destruct (think_short_circuit_inv s2) as (_ & _ & _ & _ & _ & _ & [-> | ->]); lia. }
  apply Z.leb_le in H0. rewrite H0. reflexivity.
Qed.

End ThinkZero.

(** C3, as stated: for the sprite of the walking example, just after
    Command("walk"), the call Think(0) takes the pending-command count from
    1 to 0. *)
Lemma think_zero_resolves_pending_command :
  Walk.view (Walk.run_Command "walk" (Done Walk.w0))
    = Some ("idle", "walking", 0, 0, 1%nat, [], [])
  /\ Walk.view (Walk.run_Think 0 (Walk.run_Command "walk" (Done Walk.w0)))
    = Some ("idle", "walking", 100, 0, 0%nat, [1%nat], [Load 0]).
Proof. split; vm_compute; reflexivity. Qed.

(** C3, amended: for a sprite whose frame durations and remaining time are
    not negative, Think(0) does not move on to another frame (its result
    does not depend on the depth allowed for the recursion), and when it
    returns the state-graph node and the facing index are unchanged and the
    pending-command count has not grown; when in addition the sprite has no
    pending command or has a path in flight, the animation node, the
    pending commands and the path are unchanged too, and with no waiter and
    no facing change outstanding the call does return.  (With a pending
    command and no path in flight Think(0) resolves the command, which can
    take it off the queue and, for a ready group, move the sprite onto the
    first node of the group's path.) *)
Theorem Think_zero_keeps_position
    (rand_Float64 : nat -> float)
    (Dijkstra : AlgoGraph -> list nat -> list nat -> float * list nat)
    (fuel sid : nat) (w : World) (s : Sprite) :
  w_sprites w !! sid = Some s ->
  (forall n, 0 <= nd_time (node_data (shared s) n)) ->
  0 <= togo s ->
  Think rand_Float64 Dijkstra (S fuel) sid 0 w = Think rand_Float64 Dijkstra 1 sid 0 w
  /\ (forall w', Think rand_Float64 Dijkstra (S fuel) sid 0 w = Done w' ->
        exists s', w_sprites w' !! sid = Some s'
          /\ state_node s' = state_node s
          /\ facing s' = facing s
          /\ (length (pending_cmds s') <= length (pending_cmds s))%nat
          /\ (pending_cmds s = [] \/ path s <> [] ->
                anim_node s' = anim_node s
                /\ pending_cmds s' = pending_cmds s
                /\ path s' = path s))
  /\ (pending_cmds s = [] \/ path s <> [] ->
      waiters s = [] ->
      prev_facing s = facing s ->
      (thinks s = 0 -> (0 < sh_facings (shared s))%nat) ->
      exists w', Think rand_Float64 Dijkstra (S fuel) sid 0 w = Done w').
Proof.
  intros Hs Htimes Htogo.
  split; [|split].
  - rewrite !(Think_zero_stays _ _ _ _ _ _ Hs Htimes Htogo). reflexivity.
  - intros w'. rewrite (Think_zero_stays _ _ _ _ _ _ Hs Htimes Htogo).
    destruct (think_setup sid w) as [w1| |] eqn:E1; simpl; try discriminate.
    destruct (think_setup_inv _ _ _ _ Hs E1)
      as (s1 & Hs1 & St1 & Ha1 & Hp1 & Hpa1 & _ & _ & _).
    destruct (think_resolve rand_Float64 Dijkstra sid 0 w1) as [w2| |] eqn:E2;
      simpl; try discriminate.
    destruct (think_resolve_inv _ _ _ _ _ _ _ Hs1 E2)
      as (s2 & Hs2 & St2 & _ & _ & Hlen2 & _).
    rewrite (get_sprite_Some _ _ _ Hs2). simpl.
    destruct (think_stay (think_short_circuit s2) 0) as [[s3 ev]| |] eqn:E3;
      simpl; try discriminate.
    destruct (think_short_circuit_inv s2) as (Stc & Hac & Hpc & Hpac & _).
    destruct (think_stay_inv _ _ _ _ E3) as (St3 & Ha3 & Hp3 & Hpa3 & _).
    intros E4.
    assert (Hs3 : w_sprites (emit ev (put_sprite sid s3 w2)) !! sid = Some s3)
      by (apply (lookup_put_sprite _ _ _ _ Hs2)).
    destruct (check_waiters_inv _ _ _ _ Hs3 E4) as (s4 & Hs4 & St4 & Ha4 & Hp4 & Hpa4).
    exists s4. split; [exact Hs4|].
    pose proof (stable_trans _ _ _ St1
                  (stable_trans _ _ _ St2
                     (stable_trans _ _ _ Stc (stable_trans _ _ _ St3 St4))))
      as (_ & Hst & Hf).
    split; [exact Hst|]. split; [exact Hf|].
    split; [rewrite Hp4, Hp3, Hpc, <- Hp1; exact Hlen2|].
    intros Hidle.
    assert (Hidle1 : pending_cmds s1 = [] \/ path s1 <> [])
      by (rewrite Hp1, Hpa1; exact Hidle).
    rewrite (think_resolve_idle _ _ _ _ _ _ Hs1 Hidle1) in E2.
    inversion E2. subst w2. rewrite Hs1 in Hs2. inversion Hs2. subst s2.
    repeat split; congruence.
  - intros Hidle Hw Hpf Hfac.
    rewrite (Think_zero_stays _ _ _ _ _ _ Hs Htimes Htogo).
    assert (E1 : exists w1, think_setup sid w = Done w1).
    { destruct (Z.eq_dec (thinks s) 0) as [Hth|Hth].
      - rewrite (think_setup_first sid w s Hs Hth (Hfac Hth)). eexists. reflexivity.
      - rewrite (think_setup_later sid w s Hs Hth). eexists. reflexivity. }
    destruct E1 as [w1 E1]. rewrite E1. simpl.
    destruct (think_setup_inv _ _ _ _ Hs E1)
      as (s1 & Hs1 & (_ & _ & Hf1) & _ & Hp1 & Hpa1 & Hw1 & Hpf1 & _).
    assert (Hidle1 : pending_cmds s1 = [] \/ path s1 <> [])
      by (rewrite Hp1, Hpa1; exact Hidle).
    rewrite (think_resolve_idle _ _ _ _ _ _ Hs1 Hidle1). simpl.
    rewrite (get_sprite_Some _ _ _ Hs1). simpl.
    destruct (think_short_circuit_inv s1)
      as ((_ & _ & Hfc) & _ & _ & _ & Hwc & Hpfc & _).
    unfold think_stay. simpl.
    replace (facing (think_short_circuit s1) =? prev_facing (think_short_circuit s1))
      with true by (symmetry; apply Z.eqb_eq; congruence).
    simpl. unfold check_waiters.
    erewrite get_sprite_Some by (apply (lookup_put_sprite _ _ _ _ Hs1)).
    simpl. destruct (Nat.ltb 0 _); [eexists; reflexivity|].
    rewrite Hwc, Hw1, Hw. simpl. eexists. reflexivity.
Qed.

Lemma Think_zero_keeps_position_witness :
  Think Walk.rnd Algorithm.Dijkstra 3 0 0 Walk.w0
    = Think Walk.rnd Algorithm.Dijkstra 1 0 0 Walk.w0
  /\ (forall w', Think Walk.rnd Algorithm.Dijkstra 3 0 0 Walk.w0 = Done w' ->
        exists s', w_sprites w' !! 0%nat = Some s'
          /\ state_node s' = state_node Walk.sprite0
          /\ facing s' = facing Walk.sprite0
          /\ (length (pending_cmds s') <= length (pending_cmds Walk.sprite0))%nat
          /\ (pending_cmds Walk.sprite0 = [] \/ path Walk.sprite0 <> [] ->
                anim_node s' = anim_node Walk.sprite0
                /\ pending_cmds s' = pending_cmds Walk.sprite0
                /\ path s' = path Walk.sprite0))
  /\ (pending_cmds Walk.sprite0 = [] \/ path Walk.sprite0 <> [] ->
      waiters Walk.sprite0 = [] ->
      prev_facing Walk.sprite0 = facing Walk.sprite0 ->
      (thinks Walk.sprite0 = 0 -> (0 < sh_facings (shared Walk.sprite0))%nat) ->
      exists w', Think Walk.rnd Algorithm.Dijkstra 3 0 0 Walk.w0 = Done w').
Proof.
  apply (Think_zero_keeps_position Walk.rnd Algorithm.Dijkstra 2 0 Walk.w0 Walk.sprite0).
  - reflexivity.
  - intros n. unfold node_data. simpl.
    destruct n as [|[|n]]; [vm_compute; discriminate ..|].
    rewrite !lookup_insert_ne by lia. rewrite lookup_empty. simpl. lia.
  - simpl. lia.
Defined.

(** ** The barrier of a command group *)

Lemma wrap64_id z : in_int64 z -> wrap64 z = z.
Proof.
  unfold in_int64, wrap64. intros H.
  rewrite Z.mod_small by lia. lia.
Qed.











Section Barrier.

Variable rand_Float64 : nat -> float.
Variable Dijkstra : AlgoGraph -> list nat -> list nat -> float * list nat.


End Barrier.



(** * Further properties of the package *)

(** ** Choosing an edge *)

Lemma pick_edge_sound sh cmds es t pick e :
  pick_edge sh cmds es t pick = Some e ->
  In e es /\ in_cmds cmds (ed_cmd (edge_data sh e)) = true.
Proof.
  revert t. induction es as [|x es IH]; intros t H; simpl in H.
  - discriminate.
  - destruct (in_cmds cmds (ed_cmd (edge_data sh x))) eqn:Hx.
    + destruct (PrimFloat.leb pick (PrimFloat.add t (ed_weight (edge_data sh x)))).
      * inversion H. subst. split; [left; reflexivity | exact Hx].
      * destruct (IH _ H) as [Hin Hc]. split; [right; exact Hin | exact Hc].
    + destruct (IH _ H) as [Hin Hc]. split; [right; exact Hin | exact Hc].
Qed.

(** When the pick is not above the total weight, the second loop cannot
    run to its end unless no edge matched. *)
Lemma pick_edge_none sh cmds es t pick :
  pick_edge sh cmds es t pick = None ->
  PrimFloat.leb pick (total_weight sh cmds es t) = true ->
  total_weight sh cmds es t = t.
Proof.
  revert t. induction es as [|x es IH]; intros t H Hle; simpl in *.
  - reflexivity.
  - destruct (in_cmds cmds (ed_cmd (edge_data sh x))).
    + destruct (PrimFloat.leb pick (PrimFloat.add t (ed_weight (edge_data sh x))))
        eqn:Hx; [discriminate|].
      pose proof (IH _ H Hle) as Heq. rewrite Heq in Hle. congruence.
    + apply IH; assumption.
Qed.

(** X1: selectAnEdge returns nil or one of the outgoing edges of the node
    whose command is among those asked for; it draws one random number
    when it returns an edge and at most one otherwise. *)
Theorem selectAnEdge_sound
    (rand_Float64 : nat -> float) (g : Graph) (sh : sharedSprite)
    (node : nat) (cmds : list string) (k k' : nat) (r : option Edge) :
  selectAnEdge rand_Float64 g sh node cmds k = (r, k') ->
  (k' = k \/ k' = S k)
  /\ forall e, r = Some e ->
       In e (Outputs g node)
       /\ In (ed_cmd (edge_data sh e)) cmds
       /\ k' = S k.
Proof.
  unfold selectAnEdge.
  destruct (PrimFloat.ltb 0 (total_weight sh cmds (Outputs g node) 0)).
  - intros H. inversion H. subst. split; [right; reflexivity|].
    intros e He. destruct (pick_edge_sound _ _ _ _ _ _ He) as [Hin Hc].
    split; [exact Hin|]. split; [|reflexivity].
    unfold in_cmds in Hc. apply existsb_exists in Hc.
    destruct Hc as (c & Hc & Heq). apply String.eqb_eq in Heq. subst. exact Hc.
  - intros H. inversion H. subst. split; [left; reflexivity|].
    intros e He. discriminate.
Qed.

Lemma selectAnEdge_sound_witness :
  (1%nat = 0%nat \/ 1%nat = 1%nat)
  /\ forall e, Some Walk.walk_state = Some e ->
       In e (Outputs Walk.state 0)
       /\ In (ed_cmd (edge_data Walk.sh e)) ["walk"]
       /\ 1%nat = 1%nat.
Proof.
  apply (selectAnEdge_sound Walk.rnd Walk.state Walk.sh 0 ["walk"] 0 1
           (Some Walk.walk_state)).
  vm_compute. reflexivity.
Defined.

(** X2: when the matching edges have a positive total weight and the pick
    (the random number times the total) is not above the total,
    selectAnEdge does return an edge. *)
Theorem selectAnEdge_chooses
    (rand_Float64 : nat -> float) (g : Graph) (sh : sharedSprite)
    (node : nat) (cmds : list string) (k : nat) :
  PrimFloat.ltb 0 (total_weight sh cmds (Outputs g node) 0) = true ->
  PrimFloat.leb
    (PrimFloat.mul (rand_Float64 k) (total_weight sh cmds (Outputs g node) 0))
    (total_weight sh cmds (Outputs g node) 0) = true ->
  exists e, selectAnEdge rand_Float64 g sh node cmds k = (Some e, S k).
Proof.
  intros Hpos Hle. unfold selectAnEdge. rewrite Hpos.
  destruct (pick_edge sh cmds (Outputs g node) 0
              (PrimFloat.mul (rand_Float64 k)
                 (total_weight sh cmds (Outputs g node) 0))) as [e|] eqn:Hp.
  - exists e. reflexivity.
  - pose proof (pick_edge_none _ _ _ _ _ Hp Hle) as Heq.
    rewrite Heq in Hpos. vm_compute in Hpos. discriminate.
Qed.

Lemma selectAnEdge_chooses_witness :
  exists e, selectAnEdge Walk.rnd Walk.state Walk.sh 0 ["walk"] 0 = (Some e, 1%nat).
Proof.
  apply (selectAnEdge_chooses Walk.rnd Walk.state Walk.sh 0 ["walk"] 0).
  - vm_compute. reflexivity.
  - vm_compute. reflexivity.
Defined.

(** ** The start node *)

Lemma find_seq_first (f : nat -> bool) a n i :
  List.find f (seq a n) = Some i ->
  (a <= i < a + n)%nat /\ f i = true
  /\ forall j, (a <= j < i)%nat -> f j = false.
Proof.
  revert a. induction n as [|n IH]; intros a H; simpl in H.
  - discriminate.
  - destruct (f a) eqn:Hfa.
    + inversion H. subst. split; [lia|]. split; [exact Hfa|]. intros j Hj. lia.
    + destruct (IH _ H) as (Hr & Hf & Hfirst).
      split; [lia|]. split; [exact Hf|].
      intros j Hj. destruct (Nat.eq_dec j a) as [->|Hne]; [exact Hfa|].
      apply Hfirst. lia.
Qed.

Lemma find_seq_none (f : nat -> bool) a n :
  List.find f (seq a n) = None <-> forall j, (a <= j < a + n)%nat -> f j = false.
Proof.
  revert a. induction n as [|n IH]; intros a; simpl.
  - split; [intros _ j Hj; lia | reflexivity].
  - destruct (f a) eqn:Hfa.
    + split; [discriminate|]. intros H. rewrite (H a) in Hfa by lia. discriminate.
    + rewrite IH. split.
      * intros H j Hj. destruct (Nat.eq_dec j a) as [->|Hne]; [exact Hfa|].
        apply H. lia.
      * intros H j Hj. apply H. lia.
Qed.

(** X3: getStartNode returns the first node of the graph whose tag "mark"
    is "start", and nil exactly when no node of the graph has that tag. *)
Theorem getStartNode_first (g : Graph) :
  (forall i, getStartNode g = Some i ->
     (i < NumNodes g)%nat
     /\ Tag g i "mark" = "start"
     /\ forall j, (j < i)%nat -> Tag g j "mark" <> "start")
  /\ (getStartNode g = None <->
      forall j, (j < NumNodes g)%nat -> Tag g j "mark" <> "start").
Proof.
  unfold getStartNode. split.
  - intros i H. destruct (find_seq_first _ _ _ _ H) as (Hr & Hf & Hfirst).
    split; [lia|]. split; [apply String.eqb_eq; exact Hf|].
    intros j Hj Heq. specialize (Hfirst j ltac:(lia)). simpl in Hfirst.
    apply String.eqb_neq in Hfirst. contradiction.
  - rewrite find_seq_none. split.
    + intros H j Hj Heq. specialize (H j ltac:(lia)). simpl in H.
      apply String.eqb_neq in H. contradiction.
    + intros H j Hj. apply String.eqb_neq. apply H. lia.
Qed.

(** ** The costs of animAlgoGraph *)

Lemma animAlgo_scan_spec g n delay es :
  animAlgo_scan g n delay es
  = (map e_dst es,
     map (fun e => if leaves_group g n e then 0%float else delay) es).
Proof.
  induction es as [|e es IH]; simpl.
  - reflexivity.
  - rewrite IH. reflexivity.
Qed.

(** X4: in animAlgoGraph every group output of a node is a neighbour,
    whatever its command; the i-th neighbour is the destination of the i-th
    group output and its cost is 0 when the node is in a group and the edge
    leads to a node outside that group, and the delay of the node otherwise.
    The delay is 100 when the node has no "time" tag or the tag does not
    parse.  A node in no group has no edge of cost 0 but by its delay. *)
Theorem animAlgo_Adjacent_costs
    (ParseFloat : string -> option float) (g : Graph) (n : nat) :
  length (fst (animAlgo_Adjacent ParseFloat g n)) = length (GroupOutputs g n)
  /\ length (snd (animAlgo_Adjacent ParseFloat g n)) = length (GroupOutputs g n)
  /\ (forall i e, GroupOutputs g n !! i = Some e ->
        fst (animAlgo_Adjacent ParseFloat g n) !! i = Some (e_dst e)
        /\ snd (animAlgo_Adjacent ParseFloat g n) !! i
           = Some (if leaves_group g n e then 0%float
                   else animAlgo_delay ParseFloat g n))
  /\ (Group g n = None ->
      Forall (fun c => c = animAlgo_delay ParseFloat g n)
        (snd (animAlgo_Adjacent ParseFloat g n)))
  /\ (Tag g n "time" = "" \/ ParseFloat (Tag g n "time") = None ->
      animAlgo_delay ParseFloat g n = 100%float).
Proof.
  unfold animAlgo_Adjacent. rewrite animAlgo_scan_spec. simpl.
  split; [apply length_map|]. split; [apply length_map|].
  split; [|split].
  - intros i e Hi. rewrite !list_lookup_fmap, Hi. split; reflexivity.
  - intros Hg. apply Forall_forall. intros c Hc.
    apply list_elem_of_In, in_map_iff in Hc. destruct Hc as (e & <- & _).
    unfold leaves_group. rewrite Hg. reflexivity.
  - unfold animAlgo_delay. intros [H|H].
    + rewrite H. reflexivity.
    + rewrite H. destruct (String.eqb _ _); reflexivity.
Qed.

(** ** The edge between two nodes *)

Lemma ancestry_head fuel g b : In b (ancestry (S fuel) g b).
Proof. simpl. left. reflexivity. Qed.

(** X5: edgeTo returns nil or a group output of the first node that ends
    on the second node or on one of the groups that enclose it, and the
    first such edge; an edge that ends on the second node itself is enough
    for the result not to be nil. *)
Theorem edgeTo_sound (g : Graph) (a b : nat) :
  (forall e, edgeTo g a b = Some e ->
     In e (GroupOutputs g a)
     /\ In (e_dst e) (ancestry (S (NumNodes g)) g b))
  /\ (forall e, In e (GroupOutputs g a) -> e_dst e = b ->
      exists e', edgeTo g a b = Some e')
  /\ (edgeTo g a b = None ->
      forall e, In e (GroupOutputs g a) -> e_dst e <> b).
Proof.
  unfold edgeTo.
  assert (Hdirect : forall e, In e (GroupOutputs g a) -> e_dst e = b ->
            List.find
              (fun e0 => existsb (Nat.eqb (e_dst e0)) (ancestry (S (NumNodes g)) g b))
              (GroupOutputs g a) <> None).
  { intros e Hin Hdst Hnone.
    pose proof (find_none _ _ Hnone e Hin) as Hf. simpl in Hf.
    rewrite Hdst, Nat.eqb_refl in Hf. discriminate. }
  split; [|split].
  - intros e H. apply find_some in H. destruct H as [Hin Hex].
    split; [exact Hin|].
    apply existsb_exists in Hex. destruct Hex as (x & Hx & Heq).
    apply Nat.eqb_eq in Heq. subst. exact Hx.
  - intros e Hin Hdst.
    destruct (List.find _ (GroupOutputs g a)) as [e'|] eqn:Hf.
    + exists e'. reflexivity.
    + exfalso. exact (Hdirect e Hin Hdst eq_refl).
  - intros Hnone e Hin Hdst. exact (Hdirect e Hin Hdst Hnone).
Qed.

(** ** Restoring, then capturing *)

(** X6: the snapshot captured right after a successful SetSpriteState is
    the snapshot that was restored, and the restored sprite has no command
    pending and no path in flight (it is idle). *)
Theorem GetSpriteState_after_SetSpriteState
    (sid : nat) (state : SpriteState) (w w' : World) :
  SetSpriteState sid state w = Done (None, w') ->
  exists s', w_sprites w' !! sid = Some s'
    /\ GetSpriteState s' = state
    /\ Idle s' = true.
Proof.
  intros H.
  destruct (w_sprites w !! sid) as [s|] eqn:Hs.
  - destruct (waiters s) as [|wt ws] eqn:Hw.
    + destruct (SetSpriteState_success _ _ _ _ _ _ Hs Hw H)
        as (_ & s' & H1 & H2 & H3 & H4 & H5 & H6 & _).
      exists s'. split; [exact H1|]. split.
      * unfold GetSpriteState. rewrite H4, H5, H6. destruct state. reflexivity.
      * unfold Idle. rewrite H2, H3. reflexivity.
    + rewrite (SetSpriteState_waiters sid state w s Hs) in H
        by (rewrite Hw; discriminate).
      discriminate.
  - unfold SetSpriteState, get_sprite in H. rewrite Hs in H. discriminate.
Qed.

Lemma GetSpriteState_after_SetSpriteState_witness :
  exists s',
    w_sprites (emit [Load 0]
                 (put_sprite 0
                    (mkSprite Walk.sh 1 1 true 0 0 0 0 0 [] [] []) Walk.w0))
      !! 0%nat = Some s'
    /\ GetSpriteState s' = mkSpriteState 0 1 1
    /\ Idle s' = true.
Proof.
  apply (GetSpriteState_after_SetSpriteState 0 (mkSpriteState 0 1 1) Walk.w0).
  vm_compute. reflexivity.
Defined.

(** ** The latch of a command group *)

Section Latch.

Variable rand_Float64 : nat -> float.
Variable Dijkstra : AlgoGraph -> list nat -> list nat -> float * list nat.

Lemma ready_cases gid w b w' :
  ready rand_Float64 Dijkstra gid w = Done (b, w') ->
  exists cg, w_groups w !! gid = Some cg
    /\ ((w' = w /\ (b = true <-> was_ready cg = true))
        \/ (b = true /\ was_ready cg = false
            /\ exists e ps k,
                 w' = set_rand k
                        (put_group gid
                           (mkGroup (sync_tag cg) (sprites cg) true e ps) w))).
Proof.
  unfold ready, get_group.
  destruct (w_groups w !! gid) as [cg|] eqn:Hg; simpl; [|discriminate].
  destruct (was_ready cg) eqn:Hwr.
  { intros H. inversion H. subst. exists cg. split; [reflexivity|].
    left. split; [reflexivity|]. split; intros; congruence. }
  destruct (all_waiting gid (sprites cg) w) as [ok| |]; simpl; try discriminate.
  destruct ok.
  - destruct (plan rand_Float64 Dijkstra (sync_tag cg) (sprites cg) w ∅ ∅ 0 (w_rand w))
      as [[[[e ps] mx] k]| |]; simpl; try discriminate.
    intros H. inversion H. subst. exists cg. split; [reflexivity|].
    right. split; [reflexivity|]. split; [exact Hwr|].
    eexists. eexists. eexists. reflexivity.
  - intros H. inversion H. subst. exists cg. split; [reflexivity|].
    left. split; [reflexivity|]. split; intros; congruence.
Qed.

End Latch.

(** X7: a call of ready() that answers false changes nothing, and once
    ready() has answered true every later call on the world it left answers
    true and changes nothing, whatever the members have become. *)
Theorem ready_latch
    (rand_Float64 : nat -> float)
    (Dijkstra : AlgoGraph -> list nat -> list nat -> float * list nat)
    (gid : nat) (w w' : World) (b : bool) :
  ready rand_Float64 Dijkstra gid w = Done (b, w') ->
  (b = false -> w' = w)
  /\ (b = true ->
      forall sps tr k,
        ready rand_Float64 Dijkstra gid
          (mkWorld sps (w_groups w') k tr)
        = Done (true, mkWorld sps (w_groups w') k tr)).
Proof.
  intros H. destruct (ready_cases _ _ _ _ _ _ H) as (cg & Hg & [[-> Hb]|(Hb & Hwr & e & ps & k0 & ->)]).
  - split; [reflexivity|]. intros Hbt sps tr k.
    unfold ready, get_group. simpl. rewrite Hg. simpl.
    rewrite (proj1 Hb Hbt). reflexivity.
  - split; [intros Hf; rewrite Hf in Hb; discriminate|].
    intros _ sps tr k. unfold ready, get_group. simpl.
    rewrite list_lookup_insert_eq by (apply lookup_lt_Some in Hg; exact Hg).
    reflexivity.
Qed.

Lemma ready_latch_witness :
  (true = false -> Duel.w1 = Duel.w0)
  /\ (true = true ->
      forall sps tr k,
        ready Duel.rnd Algorithm.Dijkstra 0 (mkWorld sps (w_groups Duel.w1) k tr)
        = Done (true, mkWorld sps (w_groups Duel.w1) k tr)).
Proof.
  apply (ready_latch Duel.rnd Algorithm.Dijkstra 0 Duel.w0 Duel.w1 true).
  vm_compute. reflexivity.
Defined.

(** X8: ready() writes to its own group and draws random numbers and
    nothing else: the sprites, the trace of effects and every other group
    are as before, and the group keeps its sync tag and its members. *)
Theorem ready_frame
    (rand_Float64 : nat -> float)
    (Dijkstra : AlgoGraph -> list nat -> list nat -> float * list nat)
    (gid : nat) (w w' : World) (b : bool) :
  ready rand_Float64 Dijkstra gid w = Done (b, w') ->
  w_sprites w' = w_sprites w
  /\ w_trace w' = w_trace w
  /\ length (w_groups w') = length (w_groups w)
  /\ (forall g, g <> gid -> w_groups w' !! g = w_groups w !! g)
  /\ exists cg cg', w_groups w !! gid = Some cg
       /\ w_groups w' !! gid = Some cg'
       /\ sync_tag cg' = sync_tag cg
       /\ sprites cg' = sprites cg
       /\ (was_ready cg = true -> cg' = cg).
Proof.
  intros H. destruct (ready_cases _ _ _ _ _ _ H) as (cg & Hg & [[-> Hb]|(Hb & Hwr & e & ps & k0 & ->)]).
  - repeat split; auto. exists cg, cg. repeat split; auto.
  - simpl. split; [reflexivity|]. split; [reflexivity|].
    split; [apply length_insert|].
    split; [intros g Hne; apply list_lookup_insert_ne; congruence|].
    exists cg. eexists. split; [exact Hg|].
    split; [apply list_lookup_insert_eq; apply lookup_lt_Some in Hg; exact Hg|].
    simpl. repeat split. intros Ht. rewrite Ht in Hwr. discriminate.
Qed.

Lemma ready_frame_witness :
  w_sprites Duel.w1 = w_sprites Duel.w0
  /\ w_trace Duel.w1 = w_trace Duel.w0
  /\ length (w_groups Duel.w1) = length (w_groups Duel.w0)
  /\ (forall g, g <> 0%nat -> w_groups Duel.w1 !! g = w_groups Duel.w0 !! g)
  /\ exists cg cg', w_groups Duel.w0 !! 0%nat = Some cg
       /\ w_groups Duel.w1 !! 0%nat = Some cg'
       /\ sync_tag cg' = sync_tag cg
       /\ sprites cg' = sprites cg
       /\ (was_ready cg = true -> cg' = cg).
Proof.
  apply (ready_frame Duel.rnd Algorithm.Dijkstra 0 Duel.w0 Duel.w1 true).
  vm_compute. reflexivity.
Defined.

(** ** Paths *)

Section Paths.

Variable rand_Float64 : nat -> float.
Variable Dijkstra : AlgoGraph -> list nat -> list nat -> float * list nat.

Lemma forallb_Forall_lt (N : nat) (l : list nat) :
  forallb (fun id => Nat.ltb id N) l = true -> Forall (fun n => (n < N)%nat) l.
Proof.
  induction l as [|x l IH]; simpl; intros H.
  - constructor.
  - apply andb_prop in H. destruct H as [Hx Hl].
    constructor; [apply Nat.ltb_lt; exact Hx | apply IH; exact Hl].
Qed.

Lemma findPath_loop_nodes sh cmd_names :
  forall from acc p,
    findPath_loop Dijkstra sh cmd_names from acc = Done p ->
    Forall (fun n => (n < NumNodes (sh_anim sh))%nat) acc ->
    Forall (fun n => (n < NumNodes (sh_anim sh))%nat) p
    /\ exists more, p = acc ++ more.
Proof.
  induction cmd_names as [|name rest IH]; intros from acc p H Hacc; simpl in H.
  - inversion H. subst. split; [exact Hacc|]. exists []. rewrite app_nil_r. reflexivity.
  - destruct (snd (Dijkstra _ _ _)) as [|src ids]; [discriminate|].
    destruct (forallb _ ids) eqn:Hids; [|discriminate].
    apply forallb_Forall_lt in Hids.
    destruct (IH _ _ _ H) as [Hp (more & ->)].
    { apply Forall_app. split; assumption. }
    split; [exact Hp|]. exists (ids ++ more). rewrite app_assoc. reflexivity.
Qed.

Lemma findPath_loop_no_timeout sh cmd_names :
  forall from acc, findPath_loop Dijkstra sh cmd_names from acc <> Timeout.
Proof.
  induction cmd_names as [|name rest IH]; intros from acc; simpl.
  - discriminate.
  - destruct (snd (Dijkstra _ _ _)) as [|src ids]; [discriminate|].
    destruct (forallb _ ids); [apply IH | discriminate].
Qed.

Lemma extend_loop_prefix fuel sh tag :
  forall adds tail edge extra k extra' k',
    extend_loop rand_Float64 fuel sh tag adds tail edge extra k = Done (extra', k') ->
    exists more, extra' = extra ++ more.
Proof.
  induction fuel as [|fuel IH]; intros adds tail edge extra k extra' k' H;
    simpl in H.
  - destruct edge as [e|].
    + destruct (existsb (Nat.eqb tail) adds); [|discriminate].
      inversion H. exists []. rewrite app_nil_r. reflexivity.
    + inversion H. exists []. rewrite app_nil_r. reflexivity.
  - destruct edge as [e|].
    + destruct (existsb (Nat.eqb tail) adds).
      { inversion H. exists []. rewrite app_nil_r. reflexivity. }
      destruct (String.eqb (Tag (sh_anim sh) (e_dst e) "sync") tag).
      { inversion H. exists [e_dst e]. reflexivity. }
      destruct (selectAnEdge rand_Float64 (sh_anim sh) sh (e_dst e) [""] k)
        as [edge' k1].
      destruct (IH _ _ _ _ _ _ _ H) as [more ->].
      exists (e_dst e :: more). rewrite <- app_assoc. reflexivity.
    + inversion H. exists []. rewrite app_nil_r. reflexivity.
Qed.

Lemma selectAnEdge_Some_node g sh node cmds k e k' :
  selectAnEdge rand_Float64 g sh node cmds k = (Some e, k') ->
  (node < NumNodes g)%nat.
Proof.
  unfold selectAnEdge.
  destruct (PrimFloat.ltb 0 (total_weight sh cmds (Outputs g node) 0));
    [|discriminate].
  intros H. inversion H as [[Hp Hk]].
  apply pick_edge_sound in Hp. destruct Hp as [Hin _].
  unfold Outputs, the_node in Hin.
  destruct (g_nodes g !! node) eqn:Hn; simpl in Hin.
  - apply lookup_lt_Some in Hn. exact Hn.
  - destruct Hin.
Qed.

Lemma existsb_eqb_false (x : nat) (l : list nat) :
  existsb (Nat.eqb x) l = false -> x ∉ l.
Proof.
  intros H Hin. apply list_elem_of_In in Hin.
  assert (existsb (Nat.eqb x) l = true).
  { apply existsb_exists. exists x. split; [exact Hin | apply Nat.eqb_refl]. }
  congruence.
Qed.

Lemma NoDup_below_length (N : nat) (l : list nat) :
  NoDup l -> (forall x, x ∈ l -> (x < N)%nat) -> (length l <= N)%nat.
Proof.
  intros Hnd Hlt.
  assert (Hsub : l ⊆+ seq 0 N).
  { apply NoDup_submseteq; [exact Hnd|].
    intros x Hx. apply elem_of_seq. specialize (Hlt x Hx). lia. }
  apply submseteq_length in Hsub. rewrite length_seq in Hsub. exact Hsub.
Qed.

(** Every round of the loop marks a node of the graph that was not marked
    before, so the rounds are at most as many as the nodes. *)
Lemma extend_loop_terminates sh tag fuel :
  forall adds tail edge extra k,
    NoDup adds ->
    (forall x, x ∈ adds -> (x < NumNodes (sh_anim sh))%nat) ->
    (forall e, edge = Some e -> (tail < NumNodes (sh_anim sh))%nat) ->
    (NumNodes (sh_anim sh) < fuel + length adds)%nat ->
    extend_loop rand_Float64 fuel sh tag adds tail edge extra k <> Timeout.
Proof.
  induction fuel as [|fuel IH]; intros adds tail edge extra k Hnd Hlt Htail Hfuel.
  - simpl. destruct edge as [e|]; [|discriminate].
    destruct (existsb (Nat.eqb tail) adds) eqn:Hin; [discriminate|].
    exfalso. apply existsb_eqb_false in Hin.
    assert (Hlen : (length (tail :: adds) <= NumNodes (sh_anim sh))%nat).
    { apply NoDup_below_length.
      - apply NoDup_cons. split; assumption.
      - intros x Hx. apply elem_of_cons in Hx as [->|Hx];
          [apply (Htail e eq_refl) | apply Hlt; exact Hx]. }
    simpl in Hlen, Hfuel. lia.
  - simpl. destruct edge as [e|]; [|discriminate].
    destruct (existsb (Nat.eqb tail) adds) eqn:Hin; [discriminate|].
    apply existsb_eqb_false in Hin.
    destruct (String.eqb (Tag (sh_anim sh) (e_dst e) "sync") tag); [discriminate|].
    destruct (selectAnEdge rand_Float64 (sh_anim sh) sh (e_dst e) [""] k)
      as [edge' k1] eqn:Hsel.
    apply IH.
    + apply NoDup_cons. split; assumption.
    + intros x Hx. apply elem_of_cons in Hx as [->|Hx];
        [apply (Htail e eq_refl) | apply Hlt; exact Hx].
    + intros e' ->. apply (selectAnEdge_Some_node _ _ _ _ _ _ _ Hsel).
    + simpl. lia.
Qed.

End Paths.

(** X9: the nodes of a path returned by findPathForCmd are nodes of the
    animation graph, whatever the shortest-path search returns, and a
    command without names has the empty path. *)
Theorem findPathForCmd_nodes
    (Dijkstra : AlgoGraph -> list nat -> list nat -> float * list nat)
    (s : Sprite) (cmd : command) (from : nat) :
  (forall p, findPathForCmd Dijkstra s cmd from = Done p ->
     Forall (fun n => (n < NumNodes (sh_anim (shared s)))%nat) p)
  /\ (names cmd = [] -> findPathForCmd Dijkstra s cmd from = Done []).
Proof.
  unfold findPathForCmd. split.
  - intros p H.
    destruct (findPath_loop_nodes Dijkstra _ _ _ _ _ H) as [Hp _];
      [constructor | exact Hp].
  - intros ->. reflexivity.
Qed.

(** X10: the path returned by findPathForSyncedCmd starts with the path of
    findPathForCmd and is either that path itself or that path followed by
    further nodes the last of which carries the sync tag of the command's
    group; nodes are added only when the path of findPathForCmd is not
    empty and holds no node with that tag. *)
Theorem findPathForSyncedCmd_shape
    (rand_Float64 : nat -> float)
    (Dijkstra : AlgoGraph -> list nat -> list nat -> float * list nat)
    (w : World) (s : Sprite) (cmd : command) (from k k' : nat) (p' : list nat) :
  findPathForSyncedCmd rand_Float64 Dijkstra w s cmd from k = Done (p', k') ->
  exists p,
    findPathForCmd Dijkstra s cmd from = Done p
    /\ ((p' = p)
        \/ (exists gid cg extra n,
              group cmd = Some gid
              /\ w_groups w !! gid = Some cg
              /\ p <> []
              /\ p' = p ++ extra ++ [n]
              /\ Tag (sh_anim (shared s)) n "sync" = sync_tag cg
              /\ Forall (fun m => Tag (sh_anim (shared s)) m "sync" <> sync_tag cg) p)).
Proof.
  unfold findPathForSyncedCmd.
  destruct (findPathForCmd Dijkstra s cmd from) as [p| |]; cbn [bindR];
    try discriminate.
  intros H. exists p. split; [reflexivity|].
  destruct p as [|x p0]; [inversion H; left; reflexivity|].
  destruct (group cmd) as [gid|]; [|discriminate].
  unfold get_group in H.
  destruct (w_groups w !! gid) as [cg|] eqn:Hg; cbn [bindR] in H; [|discriminate].
  destruct (existsb
              (fun n => String.eqb (Tag (sh_anim (shared s)) n "sync") (sync_tag cg))
              (x :: p0)) eqn:Hex.
  { inversion H. left. reflexivity. }
  destruct (selectAnEdge rand_Float64 (sh_anim (shared s)) (shared s)
              (List.last (x :: p0) from) [""] k) as [edge k1].
  destruct (extend_loop rand_Float64 (S (NumNodes (sh_anim (shared s))))
              (shared s) (sync_tag cg) [] (List.last (x :: p0) from) edge [] k1)
    as [[extra k2]| |] eqn:Hext; cbn [bindR] in H; try discriminate.
  destruct (Nat.ltb 0 (length extra)
            && String.eqb
                 (Tag (sh_anim (shared s))
                    (List.last extra (List.last (x :: p0) from)) "sync")
                 (sync_tag cg)) eqn:Hc;
    [|inversion H; left; reflexivity].
  inversion H. subst. right.
  apply andb_prop in Hc. destruct Hc as [Hlen Hlast].
  apply Nat.ltb_lt in Hlen. apply String.eqb_eq in Hlast.
  destruct (exists_last (l := extra)) as (extra0 & n & Heq).
  { intros ->. simpl in Hlen. lia. }
  subst extra. rewrite last_last in Hlast.
  exists gid, cg, extra0, n.
  split; [reflexivity|]. split; [exact Hg|]. split; [discriminate|].
  split; [reflexivity|]. split; [exact Hlast|].
  apply Forall_forall. intros m Hm Heq. apply list_elem_of_In in Hm.
  assert (existsb
            (fun n0 => String.eqb (Tag (sh_anim (shared s)) n0 "sync") (sync_tag cg))
            (x :: p0) = true).
  { apply existsb_exists. exists m. split; [exact Hm | apply String.eqb_eq; exact Heq]. }
  congruence.
Qed.

Lemma findPathForSyncedCmd_shape_witness :
  exists p,
    findPathForCmd Algorithm.Dijkstra Duel.attacker
      (mkCommand ["attack"] (Some 0%nat)) 0 = Done p
    /\ (([1%nat; 2%nat; 3%nat] = p)
        \/ (exists gid cg extra n,
              group (mkCommand ["attack"] (Some 0%nat)) = Some gid
              /\ w_groups Duel.w0 !! gid = Some cg
              /\ p <> []
              /\ [1%nat; 2%nat; 3%nat] = p ++ extra ++ [n]
              /\ Tag (sh_anim (shared Duel.attacker)) n "sync" = sync_tag cg
              /\ Forall (fun m => Tag (sh_anim (shared Duel.attacker)) m "sync"
                                  <> sync_tag cg) p)).
Proof.
  apply (findPathForSyncedCmd_shape Duel.rnd Algorithm.Dijkstra Duel.w0
           Duel.attacker (mkCommand ["attack"] (Some 0%nat)) 0 4 6).
  vm_compute. reflexivity.
Defined.

(** X11: findPathForSyncedCmd always comes to an end: the loop that follows
    unlabeled edges marks a new node of the graph at every round, so the
    bound of NumNodes + 1 rounds given to it is never reached, even when
    the unlabeled edges form a cycle. *)
Theorem findPathForSyncedCmd_terminates
    (rand_Float64 : nat -> float)
    (Dijkstra : AlgoGraph -> list nat -> list nat -> float * list nat)
    (w : World) (s : Sprite) (cmd : command) (from k : nat) :
  findPathForSyncedCmd rand_Float64 Dijkstra w s cmd from k <> Timeout.
Proof.
  unfold findPathForSyncedCmd, findPathForCmd.
  pose proof (findPath_loop_no_timeout Dijkstra (shared s) (names cmd) from [])
    as Hbase.
  destruct (findPath_loop Dijkstra (shared s) (names cmd) from []) as [p| |];
    cbn [bindR]; [|discriminate|exfalso; apply Hbase; reflexivity].
  destruct p as [|x p0]; [discriminate|].
  destruct (group cmd) as [gid|]; [|discriminate].
  unfold get_group.
  destruct (w_groups w !! gid) as [cg|]; cbn [bindR]; [|discriminate].
  destruct (existsb
              (fun n => String.eqb (Tag (sh_anim (shared s)) n "sync") (sync_tag cg))
              (x :: p0)); [discriminate|].
  destruct (selectAnEdge rand_Float64 (sh_anim (shared s)) (shared s)
              (List.last (x :: p0) from) [""] k) as [edge k1] eqn:Hsel.
  pose proof (extend_loop_terminates rand_Float64 (shared s) (sync_tag cg)
                (S (NumNodes (sh_anim (shared s)))) []
                (List.last (x :: p0) from) edge [] k1) as Hterm.
  destruct (extend_loop rand_Float64 (S (NumNodes (sh_anim (shared s))))
              (shared s) (sync_tag cg) [] (List.last (x :: p0) from) edge [] k1)
    as [[extra k2]| |]; cbn [bindR].
  - destruct (_ && _); discriminate.
  - discriminate.
  - exfalso. apply Hterm; try reflexivity.
    + apply NoDup_nil_2.
    + intros y Hy. apply elem_of_nil in Hy. destruct Hy.
    + intros e ->. apply (selectAnEdge_Some_node _ _ _ _ _ _ _ _ Hsel).
    + simpl. lia.
Qed.

(** ** Accepted commands *)

Section Intake.

Variable rand_Float64 : nat -> float.

Lemma commit_inv cmd_names :
  forall s k s1 k1,
    commit rand_Float64 s cmd_names k = Done (s1, k1) ->
    anim_untouched s s1 /\ pending_cmds s1 = pending_cmds s.
Proof.
  induction cmd_names as [|name rest IH]; intros s k s1 k1 H; simpl in H.
  - inversion H. subst. repeat split.
  - destruct (selectAnEdge rand_Float64 (sh_state (shared s)) (shared s)
                (state_node s) [name] k) as [[e|] k'] eqn:Hsel; [|discriminate].
    destruct (Z.of_nat (sh_facings (shared s)) =? 0); [discriminate|].
    apply IH in H. simpl in H. exact H.
Qed.

Lemma settle_inv fuel :
  forall s k s2 k2,
    settle rand_Float64 fuel s k = Done (s2, k2) ->
    anim_untouched s s2 /\ pending_cmds s2 = pending_cmds s
    /\ exists k0,
         selectAnEdge rand_Float64 (sh_state (shared s)) (shared s)
           (state_node s2) [""] k0 = (None, k2).
Proof.
  induction fuel as [|fuel IH]; intros s k s2 k2 H; simpl in H.
  - destruct (selectAnEdge rand_Float64 (sh_state (shared s)) (shared s)
                (state_node s) [""] k) as [[e|] k'] eqn:Hsel; [discriminate|].
    inversion H. subst. split; [repeat split|]. split; [reflexivity|].
    exists k. exact Hsel.
  - destruct (selectAnEdge rand_Float64 (sh_state (shared s)) (shared s)
                (state_node s) [""] k) as [[e|] k'] eqn:Hsel.
    + apply IH in H. simpl in H. exact H.
    + inversion H. subst. split; [repeat split|]. split; [reflexivity|].
      exists k. exact Hsel.
Qed.

(** What any call of baseCommand leaves alone. *)
Lemma baseCommand_frame fuel sid cmd w b w' :
  baseCommand rand_Float64 fuel sid cmd w = Done (b, w') ->
  w_groups w' = w_groups w
  /\ w_trace w' = w_trace w
  /\ length (w_sprites w') = length (w_sprites w)
  /\ (forall sid', sid' <> sid -> w_sprites w' !! sid' = w_sprites w !! sid')
  /\ exists s s', w_sprites w !! sid = Some s
       /\ w_sprites w' !! sid = Some s'
       /\ anim_untouched s s'
       /\ ((b = false /\ s' = s)
           \/ (b = true /\ pending_cmds s' = pending_cmds s ++ [cmd]
               /\ exists k0,
                    selectAnEdge rand_Float64 (sh_state (shared s)) (shared s)
                      (state_node s') [""] k0 = (None, w_rand w'))).
Proof.
  unfold baseCommand, get_sprite.
  destruct (w_sprites w !! sid) as [s|] eqn:Hs; cbn [bindR]; [|discriminate].
  destruct (probe rand_Float64 (shared s) (state_node s) (names cmd) (w_rand w))
    as [[n|] k].
  - destruct (commit rand_Float64 s (names cmd) k) as [[s1 k1]| |] eqn:Hc;
      cbn [bindR]; try discriminate.
    destruct (settle rand_Float64 fuel s1 k1) as [[s2 k2]| |] eqn:Hst;
      cbn [bindR]; try discriminate.
    intros H. inversion H. subst. clear H.
    destruct (commit_inv _ _ _ _ _ Hc) as [U1 P1].
    destruct (settle_inv _ _ _ _ _ Hst) as (U2 & P2 & k0 & Hsel).
    simpl. split; [reflexivity|]. split; [reflexivity|].
    split; [apply length_insert|].
    split; [intros sid' Hne; apply list_lookup_insert_ne; congruence|].
    exists s. eexists. split; [reflexivity|].
    split; [apply list_lookup_insert_eq; apply lookup_lt_Some in Hs; exact Hs|].
    unfold anim_untouched in *. simpl.
    split; [intuition congruence|].
    right. split; [reflexivity|]. split; [congruence|].
    exists k0. destruct U1 as [Hsh _]. rewrite <- Hsh. exact Hsel.
  - intros H. inversion H. subst. simpl.
    repeat split; auto. exists s, s. split; [reflexivity|]. split; [exact Hs|].
    split; [repeat split|]. left. split; reflexivity.
Qed.

End Intake.

(** X12: when baseCommand accepts a command it appends it at the end of
    the queue of the sprite and moves only the state node and the state
    facing: the animation node, the facing, the time left, the path and the
    waiters are untouched, and so are the other sprites, the groups and the
    trace of effects.  The state node it ends on is one where selectAnEdge
    found no unlabeled edge to follow. *)
Theorem baseCommand_accepts
    (rand_Float64 : nat -> float) (fuel sid : nat) (cmd : command)
    (w w' : World) :
  baseCommand rand_Float64 fuel sid cmd w = Done (true, w') ->
  w_groups w' = w_groups w
  /\ w_trace w' = w_trace w
  /\ (forall sid', sid' <> sid -> w_sprites w' !! sid' = w_sprites w !! sid')
  /\ exists s s', w_sprites w !! sid = Some s
       /\ w_sprites w' !! sid = Some s'
       /\ pending_cmds s' = pending_cmds s ++ [cmd]
       /\ NumPendingCmds s' = S (NumPendingCmds s)
       /\ Idle s' = false
       /\ anim_untouched s s'
       /\ exists k0,
            selectAnEdge rand_Float64 (sh_state (shared s)) (shared s)
              (state_node s') [""] k0 = (None, w_rand w').
Proof.
  intros H.
  destruct (baseCommand_frame _ _ _ _ _ _ _ H)
    as (Hg & Ht & _ & Ho & s & s' & Hs & Hs' & Hu & [[Hb _]|(_ & Hp & Hk)]);
    [discriminate|].
  split; [exact Hg|]. split; [exact Ht|]. split; [exact Ho|].
  exists s, s'. split; [exact Hs|]. split; [exact Hs'|]. split; [exact Hp|].
  split; [unfold NumPendingCmds; rewrite Hp, length_app; simpl; lia|].
  split.
  { unfold Idle. rewrite Hp, length_app. simpl.
    replace (length (pending_cmds s) + 1)%nat with (S (length (pending_cmds s)))
      by lia.
    reflexivity. }
  split; [exact Hu | exact Hk].
Qed.

Lemma baseCommand_accepts_witness :
  w_groups (match baseCommand Walk.rnd 10 0 (mkCommand ["walk"] None) Walk.w0 with
            | Done (_, w) => w | _ => Walk.w0 end) = w_groups Walk.w0
  /\ w_trace (match baseCommand Walk.rnd 10 0 (mkCommand ["walk"] None) Walk.w0 with
              | Done (_, w) => w | _ => Walk.w0 end) = w_trace Walk.w0
  /\ (forall sid', sid' <> 0%nat ->
        w_sprites (match baseCommand Walk.rnd 10 0 (mkCommand ["walk"] None) Walk.w0 with
                   | Done (_, w) => w | _ => Walk.w0 end) !! sid'
        = w_sprites Walk.w0 !! sid')
  /\ exists s s', w_sprites Walk.w0 !! 0%nat = Some s
       /\ w_sprites (match baseCommand Walk.rnd 10 0 (mkCommand ["walk"] None) Walk.w0 with
                     | Done (_, w) => w | _ => Walk.w0 end) !! 0%nat = Some s'
       /\ pending_cmds s' = pending_cmds s ++ [mkCommand ["walk"] None]
       /\ NumPendingCmds s' = S (NumPendingCmds s)
       /\ Idle s' = false
       /\ anim_untouched s s'
       /\ exists k0,
            selectAnEdge Walk.rnd (sh_state (shared s)) (shared s)
              (state_node s') [""] k0
            = (None, w_rand (match baseCommand Walk.rnd 10 0
                                     (mkCommand ["walk"] None) Walk.w0 with
                             | Done (_, w) => w | _ => Walk.w0 end)).
Proof.
  apply (baseCommand_accepts Walk.rnd 10 0 (mkCommand ["walk"] None) Walk.w0).
  vm_compute. reflexivity.
Defined.

(** ** Building a group *)

Section Sync.

Variable rand_Float64 : nat -> float.

Lemma baseCommand_grows fuel sid cmd w b w' :
  baseCommand rand_Float64 fuel sid cmd w = Done (b, w') ->
  forall sid' s, w_sprites w !! sid' = Some s ->
    exists s' more, w_sprites w' !! sid' = Some s'
      /\ pending_cmds s' = pending_cmds s ++ more.
Proof.
  intros H sid' s Hs.
  destruct (baseCommand_frame _ _ _ _ _ _ _ H)
    as (_ & _ & _ & Ho & s0 & s0' & Hs0 & Hs0' & _ & Hcase).
  destruct (Nat.eq_dec sid' sid) as [->|Hne].
  - rewrite Hs in Hs0. inversion Hs0. subst s0.
    destruct Hcase as [[_ ->]|(_ & Hp & _)].
    + exists s, []. rewrite app_nil_r. split; [exact Hs0'|reflexivity].
    + exists s0', [cmd]. split; [exact Hs0'|exact Hp].
  - exists s, []. rewrite app_nil_r. rewrite (Ho sid' Hne). split; [exact Hs|reflexivity].
Qed.

Lemma CommandSync_loop_inv fuel gid ss :
  forall cmds w w' cg,
    CommandSync_loop rand_Float64 fuel gid ss cmds w = Done w' ->
    w_groups w !! gid = Some cg ->
    exists joined,
      w_groups w'
      = <[gid := mkGroup (sync_tag cg) (sprites cg ++ joined) (was_ready cg)
                   (eta cg) (paths cg)]> (w_groups w)
      /\ sublist joined ss
      /\ (forall sid, sid ∈ joined ->
            exists s' c, w_sprites w' !! sid = Some s'
              /\ In c (pending_cmds s') /\ group c = Some gid)
      /\ w_trace w' = w_trace w
      /\ length (w_sprites w') = length (w_sprites w)
      /\ (forall sid, sid ∉ ss -> w_sprites w' !! sid = w_sprites w !! sid)
      /\ (forall sid s, w_sprites w !! sid = Some s ->
            exists s' more, w_sprites w' !! sid = Some s'
              /\ pending_cmds s' = pending_cmds s ++ more).
Proof.
  induction ss as [|sid ss IH]; intros cmds w w' cg H Hg; simpl in H.
  - inversion H. subst. exists []. rewrite app_nil_r.
    split.
    { destruct cg. simpl. symmetry. apply list_insert_id. exact Hg. }
    split; [constructor|].
    split; [intros sid Hin; apply elem_of_nil in Hin; destruct Hin|].
    split; [reflexivity|]. split; [reflexivity|]. split; [reflexivity|].
    intros sid s Hs. exists s, []. rewrite app_nil_r. split; [exact Hs|reflexivity].
  - destruct cmds as [|c cmds]; [discriminate|].
    destruct (baseCommand rand_Float64 fuel sid (mkCommand c (Some gid)) w)
      as [[ok w1]| |] eqn:Hb; cbn [bindR] in H; try discriminate.
    destruct (baseCommand_frame _ _ _ _ _ _ _ Hb)
      as (Hg1 & Ht1 & Hl1 & Ho1 & s0 & s0' & Hs0 & Hs0' & _ & Hcase).
    pose proof (baseCommand_grows _ _ _ _ _ _ Hb) as Hgrow1.
    assert (Hg1' : w_groups w1 !! gid = Some cg) by (rewrite Hg1; exact Hg).
    destruct ok.
    + unfold get_group in H. rewrite Hg1' in H. cbn [bindR] in H.
      destruct Hcase as [[Hf _]|(_ & Hp & _)]; [discriminate|].
      set (cg1 := mkGroup (sync_tag cg) (sprites cg ++ [sid]) (was_ready cg)
                    (eta cg) (paths cg)) in *.
      assert (Hg2 : w_groups (put_group gid cg1 w1) !! gid = Some cg1).
      { simpl. apply list_lookup_insert_eq. apply lookup_lt_Some in Hg1'. exact Hg1'. }
      destruct (IH _ _ _ _ H Hg2)
        as (joined & Hgr & Hsub & Hmem & Htr & Hlen & Hout & Hgrow).
      exists (sid :: joined).
      split.
      { rewrite Hgr. simpl. rewrite list_insert_insert_eq, Hg1.
        rewrite <- app_assoc. reflexivity. }
      split; [apply sublist_skip; exact Hsub|].
      split.
      { intros x Hx. apply elem_of_cons in Hx as [->|Hx]; [|apply Hmem; exact Hx].
        destruct (Hgrow sid s0') as (s' & more & Hs' & Hp'); [exact Hs0'|].
        exists s', (mkCommand c (Some gid)). split; [exact Hs'|].
        split; [|reflexivity].
        rewrite Hp', Hp. apply in_or_app. left. apply in_or_app. right. left.
        reflexivity. }
      split; [rewrite Htr; exact Ht1|].
      split; [rewrite Hlen; exact Hl1|].
      split.
      { intros x Hx. apply not_elem_of_cons in Hx as [Hne Hx].
        rewrite (Hout x Hx). simpl. apply Ho1. exact Hne. }
      intros x s Hs. destruct (Hgrow1 x s Hs) as (s1 & more1 & Hs1 & Hp1).
      destruct (Hgrow x s1 Hs1) as (s2 & more2 & Hs2 & Hp2).
      exists s2, (more1 ++ more2). split; [exact Hs2|].
      rewrite Hp2, Hp1, app_assoc. reflexivity.
    + destruct (IH _ _ _ _ H Hg1')
        as (joined & Hgr & Hsub & Hmem & Htr & Hlen & Hout & Hgrow).
      exists joined.
      split; [rewrite Hgr, Hg1; reflexivity|].
      split; [apply sublist_cons; exact Hsub|].
      split; [exact Hmem|].
      split; [rewrite Htr; exact Ht1|].
      split; [rewrite Hlen; exact Hl1|].
      split.
      { intros x Hx. apply not_elem_of_cons in Hx as [Hne Hx].
        rewrite (Hout x Hx). apply Ho1. exact Hne. }
      intros x s Hs. destruct (Hgrow1 x s Hs) as (s1 & more1 & Hs1 & Hp1).
      destruct (Hgrow x s1 Hs1) as (s2 & more2 & Hs2 & Hp2).
      exists s2, (more1 ++ more2). split; [exact Hs2|].
      rewrite Hp2, Hp1, app_assoc. reflexivity.
Qed.

End Sync.

(** X13: CommandSync adds one group to the world, not yet ready and with
    the sync tag given; its members are sprites of the list given, in the
    order of the list, and each of them holds a pending command that points
    to the group.  The groups that existed, the trace of effects and the
    sprites outside the list are untouched, and no sprite loses a pending
    command. *)
Theorem CommandSync_builds_group
    (rand_Float64 : nat -> float) (fuel : nat) (ss : list nat)
    (cmds : list (list string)) (tag : string) (w w' : World) :
  CommandSync rand_Float64 fuel ss cmds tag w = Done w' ->
  exists members,
    w_groups w' = w_groups w ++ [mkGroup tag members false ∅ ∅]
    /\ sublist members ss
    /\ (forall sid, sid ∈ members ->
          exists s' c, w_sprites w' !! sid = Some s'
            /\ In c (pending_cmds s')
            /\ group c = Some (length (w_groups w)))
    /\ w_trace w' = w_trace w
    /\ (forall sid, sid ∉ ss -> w_sprites w' !! sid = w_sprites w !! sid)
    /\ (forall sid s, w_sprites w !! sid = Some s ->
          exists s' more, w_sprites w' !! sid = Some s'
            /\ pending_cmds s' = pending_cmds s ++ more).
Proof.
  unfold CommandSync. intros H.
  set (w0 := mkWorld (w_sprites w) (w_groups w ++ [mkGroup tag [] false ∅ ∅])
               (w_rand w) (w_trace w)) in *.
  assert (Hg : w_groups w0 !! length (w_groups w) = Some (mkGroup tag [] false ∅ ∅)).
  { simpl. rewrite lookup_app_r by lia. rewrite Nat.sub_diag. reflexivity. }
  destruct (CommandSync_loop_inv _ _ _ _ _ _ _ _ H Hg)
    as (joined & Hgr & Hsub & Hmem & Htr & _ & Hout & Hgrow).
  exists joined. simpl in Hgr.
  split.
  { rewrite Hgr. rewrite insert_app_r_alt by lia. rewrite Nat.sub_diag.
    reflexivity. }
  split; [exact Hsub|]. split; [exact Hmem|]. split; [exact Htr|].
  split; [exact Hout|]. exact Hgrow.
Qed.

Lemma CommandSync_builds_group_witness :
  exists members,
    w_groups (match Walk.grouped with Done w => w | _ => Walk.w0 end)
    = w_groups Walk.w0 ++ [mkGroup "go" members false ∅ ∅]
    /\ sublist members [0%nat]
    /\ (forall sid, sid ∈ members ->
          exists s' c,
            w_sprites (match Walk.grouped with Done w => w | _ => Walk.w0 end)
              !! sid = Some s'
            /\ In c (pending_cmds s')
            /\ group c = Some (length (w_groups Walk.w0)))
    /\ w_trace (match Walk.grouped with Done w => w | _ => Walk.w0 end)
       = w_trace Walk.w0
    /\ (forall sid, sid ∉ [0%nat] ->
          w_sprites (match Walk.grouped with Done w => w | _ => Walk.w0 end) !! sid
          = w_sprites Walk.w0 !! sid)
    /\ (forall sid s, w_sprites Walk.w0 !! sid = Some s ->
          exists s' more,
            w_sprites (match Walk.grouped with Done w => w | _ => Walk.w0 end)
              !! sid = Some s'
            /\ pending_cmds s' = pending_cmds s ++ more).
Proof.
  apply (CommandSync_builds_group Walk.rnd 10 [0%nat] [[]] "go" Walk.w0).
  vm_compute. reflexivity.
Defined.

(** ** What Think leaves alone *)

Section Frame.

Variable rand_Float64 : nat -> float.
Variable Dijkstra : AlgoGraph -> list nat -> list nat -> float * list nat.

Lemma head_consumed_refl s : head_consumed s s.
Proof. repeat split. exists []. reflexivity. Qed.

Lemma head_consumed_trans s1 s2 s3 :
  head_consumed s1 s2 -> head_consumed s2 s3 -> head_consumed s1 s3.
Proof.
  intros (A1 & A2 & A3 & A4 & d1 & A5) (B1 & B2 & B3 & B4 & d2 & B5).
  repeat split; try congruence.
  exists (d1 ++ d2). rewrite A5, B5, app_assoc. reflexivity.
Qed.

Lemma group_kept_refl cg : group_kept cg cg.
Proof.
  split; [reflexivity|]. split; [reflexivity|].
  intros H. split; [exact H | reflexivity].
Qed.

Lemma group_kept_eta cg e :
  group_kept cg
    (mkGroup (sync_tag cg) (sprites cg) (was_ready cg) e (paths cg)).
Proof.
  split; [reflexivity|]. split; [reflexivity|].
  intros H. split; [exact H | reflexivity].
Qed.

Lemma group_kept_trans c1 c2 c3 :
  group_kept c1 c2 -> group_kept c2 c3 -> group_kept c1 c3.
Proof.
  intros (A1 & A2 & A3) (B1 & B2 & B3).
  split; [congruence|]. split; [congruence|].
  intros H. destruct (A3 H) as [H2 P2]. destruct (B3 H2) as [H3 P3].
  split; congruence.
Qed.

Lemma frame_refl sid w : think_frame sid w w.
Proof.
  split; [reflexivity|]. split; [reflexivity|].
  split; [intros s Hs; exists s; split; [exact Hs | apply head_consumed_refl]|].
  split; [reflexivity|].
  split; [intros g cg Hg; exists cg; split; [exact Hg | apply group_kept_refl]|].
  exists []. rewrite app_nil_r. reflexivity.
Qed.

Lemma frame_trans sid w1 w2 w3 :
  think_frame sid w1 w2 -> think_frame sid w2 w3 -> think_frame sid w1 w3.
Proof.
  intros (A1 & A2 & A3 & A4 & A5 & ev1 & A6) (B1 & B2 & B3 & B4 & B5 & ev2 & B6).
  split; [congruence|].
  split; [intros sid' Hne; rewrite (B2 sid' Hne); apply A2; exact Hne|].
  split.
  { intros s Hs. destruct (A3 s Hs) as (s2 & Hs2 & K2).
    destruct (B3 s2 Hs2) as (s3 & Hs3 & K3).
    exists s3. split; [exact Hs3 | exact (head_consumed_trans _ _ _ K2 K3)]. }
  split; [congruence|].
  split.
  { intros g cg Hg. destruct (A5 g cg Hg) as (c2 & Hc2 & K2).
    destruct (B5 g c2 Hc2) as (c3 & Hc3 & K3).
    exists c3. split; [exact Hc3 | exact (group_kept_trans _ _ _ K2 K3)]. }
  exists (ev1 ++ ev2). rewrite B6, A6, app_assoc. reflexivity.
Qed.

(** The sprite is replaced, effects are recorded, random numbers drawn. *)
Lemma frame_sprite sid w s s' ev k :
  w_sprites w !! sid = Some s ->
  head_consumed s s' ->
  think_frame sid w (set_rand k (emit ev (put_sprite sid s' w))).
Proof.
  intros Hs K. simpl.
  split; [apply length_insert|].
  split; [intros sid' Hne; apply list_lookup_insert_ne; congruence|].
  split.
  { intros s0 Hs0. rewrite Hs in Hs0. inversion Hs0. subst s0.
    exists s'. split; [|exact K].
    apply list_lookup_insert_eq. apply lookup_lt_Some in Hs. exact Hs. }
  split; [reflexivity|].
  split; [intros g cg Hg; exists cg; split; [exact Hg | apply group_kept_refl]|].
  exists ev. reflexivity.
Qed.

(** A group is replaced, random numbers drawn. *)
Lemma frame_group sid w gid cg cg' k :
  w_groups w !! gid = Some cg ->
  group_kept cg cg' ->
  think_frame sid w (set_rand k (put_group gid cg' w)).
Proof.
  intros Hg K. simpl.
  split; [reflexivity|]. split; [reflexivity|].
  split; [intros s Hs; exists s; split; [exact Hs | apply head_consumed_refl]|].
  split; [apply length_insert|].
  split.
  { intros g c Hc. destruct (Nat.eq_dec g gid) as [->|Hne].
    - rewrite Hg in Hc. inversion Hc. subst c. exists cg'. split; [|exact K].
      apply list_lookup_insert_eq. apply lookup_lt_Some in Hg. exact Hg.
    - exists c. split; [|apply group_kept_refl].
      simpl. rewrite list_lookup_insert_ne by congruence. exact Hc. }
  exists []. rewrite app_nil_r. reflexivity.
Qed.

Lemma set_rand_same w : set_rand (w_rand w) w = w.
Proof. destruct w. reflexivity. Qed.

Lemma frame_sprite' sid w s s' ev :
  w_sprites w !! sid = Some s ->
  head_consumed s s' ->
  think_frame sid w (emit ev (put_sprite sid s' w)).
Proof.
  intros Hs K.
  pose proof (frame_sprite sid w s s' ev (w_rand w) Hs K) as H.
  exact H.
Qed.

Lemma frame_group' sid w gid cg cg' :
  w_groups w !! gid = Some cg ->
  group_kept cg cg' ->
  think_frame sid w (put_group gid cg' w).
Proof.
  intros Hg K.
  pose proof (frame_group sid w gid cg cg' (w_rand w) Hg K) as H.
  exact H.
Qed.

Lemma ready_think_frame sid gid w b w' :
  ready rand_Float64 Dijkstra gid w = Done (b, w') -> think_frame sid w w'.
Proof.
  intros H.
  destruct (ready_cases _ _ _ _ _ _ H)
    as (cg & Hg & [[-> _]|(_ & Hwr & e & ps & k & ->)]).
  - apply frame_refl.
  - apply (frame_group sid w gid cg _ k Hg).
    split; [reflexivity|]. split; [reflexivity|].
    intros Ht. rewrite Ht in Hwr. discriminate.
Qed.

Lemma think_setup_frame sid w w1 :
  think_setup sid w = Done w1 -> think_frame sid w w1.
Proof.
  unfold think_setup, get_sprite.
  destruct (w_sprites w !! sid) as [s|] eqn:Hs; cbn [bindR]; [|discriminate].
  destruct (thinks s =? 0).
  - destruct (facing_ok (shared s) 0); cbn [bindR]; [|discriminate].
    intros H. inversion H. apply (frame_sprite' sid w s _ _ Hs).
    repeat split. exists []. reflexivity.
  - cbn [bindR]. intros H. inversion H. apply (frame_sprite' sid w s _ _ Hs).
    repeat split. exists []. reflexivity.
Qed.

Lemma check_waiters_frame sid w w' :
  check_waiters sid w = Done w' -> think_frame sid w w'.
Proof.
  unfold check_waiters, get_sprite.
  destruct (w_sprites w !! sid) as [s|] eqn:Hs; cbn [bindR]; [|discriminate].
  destruct (Nat.ltb 0 (NumPendingCmds s)).
  - intros H. inversion H. apply frame_refl.
  - destruct (resolve_waiters _ _ _ _ _) as [[ws ev]| |]; cbn [bindR];
      try discriminate.
    intros H. inversion H. apply (frame_sprite' sid w s _ _ Hs).
    repeat split. exists []. reflexivity.
Qed.

Lemma think_resolve_frame sid dt w w2 :
  think_resolve rand_Float64 Dijkstra sid dt w = Done w2 -> think_frame sid w w2.
Proof.
  unfold think_resolve, get_sprite.
  destruct (w_sprites w !! sid) as [s|] eqn:Hs; cbn [bindR]; [|discriminate].
  destruct (pending_cmds s) as [|c cs] eqn:Hp;
    [intros H; inversion H; apply frame_refl|].
  destruct (path s) as [|x xs] eqn:Hpath;
    [|intros H; inversion H; apply frame_refl].
  destruct (group c) as [gid|].
  - destruct (ready rand_Float64 Dijkstra gid w) as [[ok w1]| |] eqn:Hr;
      cbn [bindR]; try discriminate.
    pose proof (ready_think_frame sid _ _ _ _ Hr) as F1.
    assert (Hs1 : w_sprites w1 !! sid = Some s).
    { destruct F1 as (_ & _ & _ & _ & _ & _).
      destruct (ready_cases _ _ _ _ _ _ Hr)
        as (cg0 & _ & [[-> _]|(_ & _ & e & ps & k & ->)]); exact Hs. }
    destruct ok; [|intros H; inversion H; subst; exact F1].
    unfold get_group.
    destruct (w_groups w1 !! gid) as [cg|] eqn:Hg; cbn [bindR]; [|discriminate].
    set (cg' := mkGroup (sync_tag cg) (sprites cg) (was_ready cg)
                  (<[sid := sub64 (default 0 (eta cg !! sid)) dt]> (eta cg))
                  (paths cg)).
    assert (F2 : think_frame sid w1 (put_group gid cg' w1)).
    { apply (frame_group' sid w1 gid cg cg' Hg). apply group_kept_eta. }
    assert (Hs2 : w_sprites (put_group gid cg' w1) !! sid = Some s) by exact Hs1.
    destruct (sub64 (default 0 (eta cg !! sid)) dt <=? 0).
    + destruct (default [] (paths cg !! sid)) as [|n rest]; cbn [bindR];
        [discriminate|].
      intros H. inversion H.
      apply (frame_trans _ _ _ _ F1). apply (frame_trans _ _ _ _ F2).
      apply (frame_sprite' sid _ s _ _ Hs2).
      repeat split. exists [c]. simpl. rewrite Hp. reflexivity.
    + cbn [bindR]. intros H. inversion H.
      apply (frame_trans _ _ _ _ F1). apply (frame_trans _ _ _ _ F2).
      apply (frame_sprite' sid _ s _ _ Hs2). apply head_consumed_refl.
  - destruct (findPathForCmd Dijkstra s c (anim_node s)) as [p| |];
      cbn [bindR]; try discriminate.
    destruct p as [|n p]; [intros H; inversion H; apply frame_refl|].
    intros H. inversion H.
    pose proof (frame_sprite' sid w s
                  (set_pending_cmds (applyPath s (n :: p)) cs) [] Hs) as F.
    rewrite emit_nil in F. apply F.
    repeat split. exists [c]. simpl. rewrite Hp. reflexivity.
Qed.

Lemma think_short_circuit_consumed s : head_consumed s (think_short_circuit s).
Proof.
  unfold think_short_circuit.
  repeat match goal with
         | |- context [match ?x with _ => _ end] => destruct x
         end;
    apply head_consumed_refl || (repeat split; exists []; reflexivity).
Qed.

Lemma think_stay_consumed s dt s' ev :
  think_stay s dt = Done (s', ev) -> head_consumed s s'.
Proof.
  unfold think_stay. simpl.
  destruct (negb (facing s =? prev_facing s)).
  - destruct (facing_ok (shared s) (prev_facing s) && facing_ok (shared s) (facing s));
      [|discriminate].
    intros H. inversion H. repeat split. exists []. reflexivity.
  - intros H. inversion H. repeat split. exists []. reflexivity.
Qed.

Lemma think_advance_consumed sid s k s' ev k' :
  think_advance rand_Float64 sid s k = Done (s', ev, k') -> head_consumed s s'.
Proof.
  unfold think_advance.
  destruct (path s) as [|n rest].
  - destruct (selectAnEdge rand_Float64 (sh_anim (shared s)) (shared s)
                (anim_node s) [""] k) as [[e|] k0];
      (destruct (negb (ed_facing _ =? 0));
       [destruct (Z.of_nat (sh_facings (shared s)) =? 0); cbn [bindR];
        [discriminate|] |cbn [bindR]];
       intros H; inversion H; repeat split; exists []; reflexivity).
  - destruct (negb (ed_facing _ =? 0));
      [destruct (Z.of_nat (sh_facings (shared s)) =? 0); cbn [bindR];
       [discriminate|] |cbn [bindR]];
      intros H; inversion H; repeat split; exists []; reflexivity.
Qed.

Lemma Think_keeps fuel :
  forall sid dt w w',
    Think rand_Float64 Dijkstra fuel sid dt w = Done w' -> think_frame sid w w'.
Proof.
  induction fuel as [|fuel IH]; intros sid dt w w' H; [discriminate|].
  rewrite Think_S in H.
  destruct (think_setup sid w) as [w1| |] eqn:E1; cbn [bindR] in H;
    try discriminate.
  pose proof (think_setup_frame _ _ _ E1) as F1.
  destruct (dt <? 0); [inversion H; subst; exact F1|].
  destruct (think_resolve rand_Float64 Dijkstra sid dt w1) as [w2| |] eqn:E2;
    cbn [bindR] in H; try discriminate.
  pose proof (think_resolve_frame _ _ _ _ E2) as F2.
  unfold get_sprite in H.
  destruct (w_sprites w2 !! sid) as [s|] eqn:Hs; cbn [bindR] in H;
    [|discriminate].
  cbv zeta in H.
  apply (frame_trans _ _ _ _ F1). apply (frame_trans _ _ _ _ F2).
  destruct (dt <=? togo (think_short_circuit s)).
  - destruct (think_stay (think_short_circuit s) dt) as [[s' ev]| |] eqn:E3;
      cbn [bindR] in H; try discriminate.
    apply (frame_trans _ _ (emit ev (put_sprite sid s' w2))).
    + apply (frame_sprite' sid w2 s s' ev Hs).
      exact (head_consumed_trans _ _ _ (think_short_circuit_consumed s)
               (think_stay_consumed _ _ _ _ E3)).
    + apply check_waiters_frame. exact H.
  - destruct (think_advance rand_Float64 sid (think_short_circuit s) (w_rand w2))
      as [[[s' ev] k]| |] eqn:E3; cbn [bindR] in H; try discriminate.
    destruct (Think rand_Float64 Dijkstra fuel sid
                (sub64 dt (togo (think_short_circuit s)))
                (set_rand k (emit ev (put_sprite sid s' w2)))) as [w3| |] eqn:E4;
      cbn [bindR] in H; try discriminate.
    apply (frame_trans _ _ (set_rand k (emit ev (put_sprite sid s' w2)))).
    + apply (frame_sprite sid w2 s s' ev k Hs).
      exact (head_consumed_trans _ _ _ (think_short_circuit_consumed s)
               (think_advance_consumed _ _ _ _ _ _ E3)).
    + apply (frame_trans _ _ w3).
      * apply (IH _ _ _ _ E4).
      * apply check_waiters_frame. exact H.
Qed.

End Frame.

(** X14: whatever the step, a call of Think that returns has written to
    its own sprite only: the other sprites are untouched; the sprite keeps
    its graphs, its state node, its state facing and its trigger, and its
    pending commands are what was left of the queue after some commands
    were taken from its head; no group is added or removed, every group
    keeps its sync tag and its members, and a group that was ready is still
    ready and stores the same paths; effects are only added to the
    trace. *)
Theorem Think_frame
    (rand_Float64 : nat -> float)
    (Dijkstra : AlgoGraph -> list nat -> list nat -> float * list nat)
    (fuel sid : nat) (dt : Z) (w w' : World) :
  Think rand_Float64 Dijkstra fuel sid dt w = Done w' ->
  length (w_sprites w') = length (w_sprites w)
  /\ (forall sid', sid' <> sid -> w_sprites w' !! sid' = w_sprites w !! sid')
  /\ (forall s, w_sprites w !! sid = Some s ->
        exists s', w_sprites w' !! sid = Some s'
          /\ shared s' = shared s /\ state_node s' = state_node s
          /\ state_facing s' = state_facing s /\ trigger s' = trigger s
          /\ exists done, pending_cmds s = done ++ pending_cmds s')
  /\ length (w_groups w') = length (w_groups w)
  /\ (forall g cg, w_groups w !! g = Some cg ->
        exists cg', w_groups w' !! g = Some cg'
          /\ sync_tag cg' = sync_tag cg /\ sprites cg' = sprites cg
          /\ (was_ready cg = true ->
              was_ready cg' = true /\ paths cg' = paths cg))
  /\ exists ev, w_trace w' = w_trace w ++ ev.
Proof.
  intros H. exact (Think_keeps rand_Float64 Dijkstra fuel sid dt w w' H).
Qed.

Lemma Think_frame_witness :
  length (w_sprites (match Think Walk.rnd Algorithm.Dijkstra 10 0 130 Walk.w0 with
                     | Done w => w | _ => Walk.w0 end))
  = length (w_sprites Walk.w0)
  /\ (forall sid', sid' <> 0%nat ->
        w_sprites (match Think Walk.rnd Algorithm.Dijkstra 10 0 130 Walk.w0 with
                   | Done w => w | _ => Walk.w0 end) !! sid'
        = w_sprites Walk.w0 !! sid')
  /\ (forall s, w_sprites Walk.w0 !! 0%nat = Some s ->
        exists s',
          w_sprites (match Think Walk.rnd Algorithm.Dijkstra 10 0 130 Walk.w0 with
                     | Done w => w | _ => Walk.w0 end) !! 0%nat = Some s'
          /\ shared s' = shared s /\ state_node s' = state_node s
          /\ state_facing s' = state_facing s /\ trigger s' = trigger s
          /\ exists done, pending_cmds s = done ++ pending_cmds s')
  /\ length (w_groups (match Think Walk.rnd Algorithm.Dijkstra 10 0 130 Walk.w0 with
                       | Done w => w | _ => Walk.w0 end))
     = length (w_groups Walk.w0)
  /\ (forall g cg, w_groups Walk.w0 !! g = Some cg ->
        exists cg',
          w_groups (match Think Walk.rnd Algorithm.Dijkstra 10 0 130 Walk.w0 with
                    | Done w => w | _ => Walk.w0 end) !! g = Some cg'
          /\ sync_tag cg' = sync_tag cg /\ sprites cg' = sprites cg
          /\ (was_ready cg = true ->
              was_ready cg' = true /\ paths cg' = paths cg))
  /\ exists ev,
       w_trace (match Think Walk.rnd Algorithm.Dijkstra 10 0 130 Walk.w0 with
                | Done w => w | _ => Walk.w0 end)
       = w_trace Walk.w0 ++ ev.
Proof.
  apply (Think_frame Walk.rnd Algorithm.Dijkstra 10 0 130 Walk.w0).
  vm_compute. reflexivity.
Defined.

(** ** The facing stays a facing *)

Section FacingRange.

Variable rand_Float64 : nat -> float.
Variable Dijkstra : AlgoGraph -> list nat -> list nat -> float * list nat.

Lemma turn_in_range (f face n : Z) :
  0 <= f < n -> - n <= face <= n -> n < 2 ^ 61 ->
  0 <= rem64 (add64 (add64 f face) n) n < n.
Proof.
  intros Hf Hface Hn. unfold rem64, add64.
  rewrite (wrap64_id (f + face)) by (unfold in_int64; lia).
  rewrite (wrap64_id (f + face + n)) by (unfold in_int64; lia).
  pose proof (Z.rem_bound_pos (f + face + n) n ltac:(lia) ltac:(lia)) as Hr.
  rewrite wrap64_id by (unfold in_int64; lia). exact Hr.
Qed.

Lemma think_advance_facing sid s k s' ev k' :
  think_advance rand_Float64 sid s k = Done (s', ev, k') ->
  facing_ok (shared s) (facing s) = true ->
  (forall e, - Z.of_nat (sh_facings (shared s))
             <= ed_facing (edge_data (shared s) e)
             <= Z.of_nat (sh_facings (shared s))) ->
  Z.of_nat (sh_facings (shared s)) < 2 ^ 61 ->
  shared s' = shared s /\ facing_ok (shared s) (facing s') = true.
Proof.
  intros H Hok Hbound Hn.
  assert (Hturn : forall oe s1,
            shared s1 = shared s -> facing s1 = facing s ->
            (Z.of_nat (sh_facings (shared s)) =? 0) = false ->
            facing_ok (shared s)
              (rem64 (add64 (add64 (facing s1)
                               (ed_facing (edge_data_opt (shared s) oe)))
                        (Z.of_nat (sh_facings (shared s))))
                 (Z.of_nat (sh_facings (shared s)))) = true).
  { intros oe s1 _ Hfs _. rewrite Hfs.
    unfold facing_ok in Hok. apply andb_prop in Hok. destruct Hok as [H0 H1].
    apply Z.leb_le in H0. apply Z.ltb_lt in H1.
    assert (Hb : - Z.of_nat (sh_facings (shared s))
                 <= ed_facing (edge_data_opt (shared s) oe)
                 <= Z.of_nat (sh_facings (shared s))).
    { destruct oe as [e|]; simpl; [apply Hbound | lia]. }
    pose proof (turn_in_range _ _ _ (conj H0 H1) Hb Hn) as Hr.
    unfold facing_ok. apply andb_true_intro.
    split; [apply Z.leb_le | apply Z.ltb_lt]; lia. }
  unfold think_advance in H.
  destruct (path s) as [|n rest].
  - destruct (selectAnEdge rand_Float64 (sh_anim (shared s)) (shared s)
                (anim_node s) [""] k) as [[e|] k0];
      (destruct (negb (ed_facing _ =? 0));
       [destruct (Z.of_nat (sh_facings (shared s)) =? 0) eqn:Hz; cbn [bindR] in H;
        [discriminate|]; inversion H; subst; simpl; split; [reflexivity|];
        apply (Hturn _ s); auto
       |cbn [bindR] in H; inversion H; subst; simpl; split; [reflexivity|exact Hok]]).
  - destruct (negb (ed_facing _ =? 0));
      [destruct (Z.of_nat (sh_facings (shared s)) =? 0) eqn:Hz; cbn [bindR] in H;
       [discriminate|]; inversion H; subst; simpl; split; [reflexivity|];
       apply (Hturn _ (set_path s rest)); auto
      |cbn [bindR] in H; inversion H; subst; simpl; split; [reflexivity|exact Hok]].
Qed.

Lemma Think_facing_ok fuel :
  forall sid dt w w' s,
    Think rand_Float64 Dijkstra fuel sid dt w = Done w' ->
    w_sprites w !! sid = Some s ->
    facing_ok (shared s) (facing s) = true ->
    (forall e, - Z.of_nat (sh_facings (shared s))
               <= ed_facing (edge_data (shared s) e)
               <= Z.of_nat (sh_facings (shared s))) ->
    Z.of_nat (sh_facings (shared s)) < 2 ^ 61 ->
    exists s', w_sprites w' !! sid = Some s'
      /\ shared s' = shared s
      /\ facing_ok (shared s) (facing s') = true.
Proof.
  induction fuel as [|fuel IH]; intros sid dt w w' s H Hs Hok Hbound Hn;
    [discriminate|].
  rewrite Think_S in H.
  destruct (think_setup sid w) as [w1| |] eqn:E1; cbn [bindR] in H;
    try discriminate.
  destruct (think_setup_inv _ _ _ _ Hs E1) as (s1 & Hs1 & (Sh1 & _ & F1) & _).
  destruct (dt <? 0).
  { inversion H. subst. exists s1. split; [exact Hs1|]. split; [exact Sh1|].
    rewrite F1. exact Hok. }
  destruct (think_resolve rand_Float64 Dijkstra sid dt w1) as [w2| |] eqn:E2;
    cbn [bindR] in H; try discriminate.
  destruct (think_resolve_inv _ _ _ _ _ _ _ Hs1 E2) as (s2 & Hs2 & (Sh2 & _ & F2) & _).
  rewrite (get_sprite_Some _ _ _ Hs2) in H. cbn [bindR] in H. cbv zeta in H.
  destruct (think_short_circuit_inv s2) as ((Sh3 & _ & F3) & _).
  assert (Sh : shared (think_short_circuit s2) = shared s) by congruence.
  assert (Fc : facing (think_short_circuit s2) = facing s) by congruence.
  destruct (dt <=? togo (think_short_circuit s2)).
  - destruct (think_stay (think_short_circuit s2) dt) as [[s' ev]| |] eqn:E3;
      cbn [bindR] in H; try discriminate.
    destruct (think_stay_inv _ _ _ _ E3) as ((Sh4 & _ & F4) & _).
    assert (Hs' : w_sprites (emit ev (put_sprite sid s' w2)) !! sid = Some s')
      by (apply (lookup_put_sprite _ _ _ _ Hs2)).
    destruct (check_waiters_inv _ _ _ _ Hs' H) as (s4 & Hs4 & (Sh5 & _ & F5) & _).
    exists s4. split; [exact Hs4|]. split; [congruence|].
    rewrite F5, F4, Fc. exact Hok.
  - destruct (think_advance rand_Float64 sid (think_short_circuit s2) (w_rand w2))
      as [[[s' ev] k]| |] eqn:E3; cbn [bindR] in H; try discriminate.
    destruct (think_advance_facing _ _ _ _ _ _ E3) as [Sh4 F4].
    { rewrite Sh, Fc. exact Hok. }
    { rewrite Sh. exact Hbound. }
    { rewrite Sh. exact Hn. }
    destruct (Think rand_Float64 Dijkstra fuel sid
                (sub64 dt (togo (think_short_circuit s2)))
                (set_rand k (emit ev (put_sprite sid s' w2)))) as [w3| |] eqn:E4;
      cbn [bindR] in H; try discriminate.
    assert (Hs' : w_sprites (set_rand k (emit ev (put_sprite sid s' w2))) !! sid
                  = Some s')
      by (apply (lookup_put_sprite _ _ _ _ Hs2)).
    assert (Sh' : shared s' = shared s) by congruence.
    destruct (IH _ _ _ _ s' E4 Hs') as (s3 & Hs3 & Sh6 & F6).
    { rewrite Sh'. rewrite Sh in F4. exact F4. }
    { rewrite Sh'. exact Hbound. }
    { rewrite Sh'. exact Hn. }
    destruct (check_waiters_inv _ _ _ _ Hs3 H) as (s4 & Hs4 & (Sh7 & _ & F7) & _).
    exists s4. split; [exact Hs4|]. split; [congruence|].
    rewrite F7. rewrite Sh' in F6. exact F6.
Qed.

End FacingRange.

(** X15: when no edge carries a facing delta of more than one full turn,
    a call of Think that returns leaves the facing of the sprite an index
    of its facings if it was one before: the update (facing + delta + n)
    % n stays within 0 .. n-1. *)
Theorem Think_keeps_facing_in_range
    (rand_Float64 : nat -> float)
    (Dijkstra : AlgoGraph -> list nat -> list nat -> float * list nat)
    (fuel sid : nat) (dt : Z) (w w' : World) (s : Sprite) :
  Think rand_Float64 Dijkstra fuel sid dt w = Done w' ->
  w_sprites w !! sid = Some s ->
  0 <= facing s < Z.of_nat (sh_facings (shared s)) ->
  (forall e, - Z.of_nat (sh_facings (shared s))
             <= ed_facing (edge_data (shared s) e)
             <= Z.of_nat (sh_facings (shared s))) ->
  Z.of_nat (sh_facings (shared s)) < 2 ^ 61 ->
  exists s', w_sprites w' !! sid = Some s'
    /\ shared s' = shared s
    /\ 0 <= facing s' < Z.of_nat (sh_facings (shared s')).
Proof.
  intros H Hs Hf Hbound Hn.
  assert (Hok : facing_ok (shared s) (facing s) = true).
  { unfold facing_ok. apply andb_true_intro.
    split; [apply Z.leb_le | apply Z.ltb_lt]; lia. }
  destruct (Think_facing_ok rand_Float64 Dijkstra fuel sid dt w w' s
              H Hs Hok Hbound Hn) as (s' & Hs' & Sh & Hok').
  exists s'. split; [exact Hs'|]. split; [exact Sh|].
  unfold facing_ok in Hok'. apply andb_prop in Hok'. destruct Hok' as [H0 H1].
  apply Z.leb_le in H0. apply Z.ltb_lt in H1. rewrite Sh. lia.
Qed.

Lemma Think_keeps_facing_in_range_witness :
  exists s',
    w_sprites (match Think Walk.rnd Algorithm.Dijkstra 10 0 130 Walk.w0 with
               | Done w => w | _ => Walk.w0 end) !! 0%nat = Some s'
    /\ shared s' = shared Walk.sprite0
    /\ 0 <= facing s' < Z.of_nat (sh_facings (shared s')).
Proof.
  apply (Think_keeps_facing_in_range Walk.rnd Algorithm.Dijkstra 10 0 130 Walk.w0).
  - vm_compute. reflexivity.
  - reflexivity.
  - simpl. lia.
  - intros e. unfold edge_data. simpl.
    destruct (e_id e) as [|[|n]]; [vm_compute; split; discriminate ..|].
    rewrite !lookup_insert_ne by lia. rewrite lookup_empty. simpl. lia.
  - simpl. lia.
Defined.

(** ** Time on an idle sprite *)

Lemma set_waiters_same s : set_waiters s (waiters s) = s.
Proof. destruct s. reflexivity. Qed.

(** X16: on a sprite that has thought before, with no pending command,
    no path, no waiter and no facing change outstanding, a step that does
    not exceed the time left on the frame is simply taken off that time:
    the call returns, the sprite stays on its node, no effect is recorded
    and no random number is drawn. *)
Theorem Think_idle_consumes_time
    (rand_Float64 : nat -> float)
    (Dijkstra : AlgoGraph -> list nat -> list nat -> float * list nat)
    (fuel sid : nat) (dt : Z) (w : World) (s : Sprite) :
  w_sprites w !! sid = Some s ->
  thinks s <> 0 ->
  pending_cmds s = [] ->
  path s = [] ->
  waiters s = [] ->
  prev_facing s = facing s ->
  0 <= dt <= togo s ->
  togo s < 2 ^ 63 ->
  Think rand_Float64 Dijkstra (S fuel) sid dt w
  = Done (put_sprite sid
            (set_togo (set_thinks s (add64 (thinks s) 1)) (togo s - dt)) w).
Proof.
  intros Hs Hth Hp Hpath Hw Hpf Hdt Hmax.
  rewrite Think_S.
  rewrite (think_setup_later sid w s Hs Hth), emit_nil. cbn [bindR].
  replace (dt <? 0) with false by (symmetry; apply Z.ltb_ge; lia).
  set (s1 := set_thinks s (add64 (thinks s) 1)).
  assert (Hs1 : w_sprites (put_sprite sid s1 w) !! sid = Some s1)
    by (apply (lookup_put_sprite _ _ _ _ Hs)).
  rewrite (think_resolve_idle rand_Float64 Dijkstra sid dt _ s1 Hs1)
    by (left; exact Hp).
  cbn [bindR]. rewrite (get_sprite_Some _ _ _ Hs1). cbn [bindR]. cbv zeta.
  assert (Hsc : think_short_circuit s1 = s1).
  { unfold think_short_circuit. subst s1. simpl. rewrite Hpath. reflexivity. }
  rewrite Hsc.
  replace (dt <=? togo s1) with true by (symmetry; apply Z.leb_le; simpl; lia).
  unfold think_stay. simpl.
  replace (facing s =? prev_facing s) with true
    by (symmetry; apply Z.eqb_eq; congruence).
  simpl. rewrite emit_nil.
  unfold check_waiters.
  erewrite get_sprite_Some
    by (simpl; apply list_lookup_insert_eq; rewrite length_insert;
        apply lookup_lt_Some in Hs; exact Hs).
  cbn [bindR]. unfold NumPendingCmds. simpl. rewrite Hp, Hw. simpl.
  rewrite emit_nil. unfold put_sprite. simpl.
  rewrite list_insert_insert_eq, list_insert_insert_eq.
  unfold sub64. rewrite wrap64_id by (unfold in_int64; lia).
  f_equal. f_equal. f_equal.
  unfold set_waiters, set_togo, s1, set_thinks. simpl. rewrite <- Hw.
  reflexivity.
Qed.

Lemma Think_idle_consumes_time_witness :
  Think Walk.rnd Algorithm.Dijkstra 1 0 30
    (mkWorld [set_togo (set_thinks Walk.sprite0 1) 100] [] 0 [])
  = Done (put_sprite 0
            (set_togo
               (set_thinks (set_togo (set_thinks Walk.sprite0 1) 100) (add64 1 1))
               (100 - 30))
            (mkWorld [set_togo (set_thinks Walk.sprite0 1) 100] [] 0 [])).
Proof.
  apply (Think_idle_consumes_time Walk.rnd Algorithm.Dijkstra 0 0 30
           (mkWorld [set_togo (set_thinks Walk.sprite0 1) 100] [] 0 [])
           (set_togo (set_thinks Walk.sprite0 1) 100)).
  - reflexivity.
  - simpl. lia.
  - reflexivity.
  - reflexivity.
  - reflexivity.
  - reflexivity.
  - simpl. lia.
  - simpl. lia.
Defined.

(** ** The sprite stays on the graph *)

Section OnTheGraph.

Variable rand_Float64 : nat -> float.
Variable Dijkstra : AlgoGraph -> list nat -> list nat -> float * list nat.

Lemma store_ok_sprite sps gs sid s s' :
  store_ok sps gs ->
  sps !! sid = Some s ->
  shared s' = shared s ->
  sprite_ok s' ->
  store_ok (<[sid := s']> sps) gs.
Proof.
  intros [Hsp Hgr] Hs Hsh Hok. split.
  - intros sid0 s0 H0. destruct (Nat.eq_dec sid0 sid) as [->|Hne].
    + rewrite list_lookup_insert_eq in H0 by (apply lookup_lt_Some in Hs; exact Hs).
      inversion H0. subst. exact Hok.
    + rewrite list_lookup_insert_ne in H0 by congruence. apply (Hsp _ _ H0).
  - intros g cg sid0 p s0 Hg Hp H0. destruct (Nat.eq_dec sid0 sid) as [->|Hne].
    + rewrite list_lookup_insert_eq in H0 by (apply lookup_lt_Some in Hs; exact Hs).
      inversion H0. subst. unfold valid_node. rewrite Hsh.
      apply (Hgr _ _ _ _ _ Hg Hp Hs).
    + rewrite list_lookup_insert_ne in H0 by congruence.
      apply (Hgr _ _ _ _ _ Hg Hp H0).
Qed.

Lemma store_ok_group sps gs gid cg cg' :
  store_ok sps gs ->
  gs !! gid = Some cg ->
  (forall sid p s, paths cg' !! sid = Some p -> sps !! sid = Some s ->
                   Forall (valid_node (shared s)) p) ->
  store_ok sps (<[gid := cg']> gs).
Proof.
  intros [Hsp Hgr] Hg Hnew. split; [exact Hsp|].
  intros g c sid p s Hc Hp Hs. destruct (Nat.eq_dec g gid) as [->|Hne].
  - rewrite list_lookup_insert_eq in Hc by (apply lookup_lt_Some in Hg; exact Hg).
    inversion Hc. subst. apply (Hnew _ _ _ Hp Hs).
  - rewrite list_lookup_insert_ne in Hc by congruence.
    apply (Hgr _ _ _ _ _ Hc Hp Hs).
Qed.

Lemma selectAnEdge_anim_valid sh node cmds k e k' :
  wf_shared sh ->
  selectAnEdge rand_Float64 (sh_anim sh) sh node cmds k = (Some e, k') ->
  valid_node sh (e_dst e).
Proof.
  intros Hwf H.
  destruct (selectAnEdge_sound _ _ _ _ _ _ _ _ H) as [_ He].
  destruct (He e eq_refl) as [Hin _]. apply (Hwf _ _ Hin).
Qed.

Lemma extend_loop_valid sh tag fuel :
  wf_shared sh ->
  forall adds tail edge extra k extra' k',
    extend_loop rand_Float64 fuel sh tag adds tail edge extra k = Done (extra', k') ->
    (forall e, edge = Some e -> valid_node sh (e_dst e)) ->
    Forall (valid_node sh) extra ->
    Forall (valid_node sh) extra'.
Proof.
  intros Hwf.
  induction fuel as [|fuel IH]; intros adds tail edge extra k extra' k' H He Hex;
    simpl in H.
  - destruct edge as [e|]; [|inversion H; subst; exact Hex].
    destruct (existsb (Nat.eqb tail) adds); [|discriminate].
    inversion H. subst. exact Hex.
  - destruct edge as [e|]; [|inversion H; subst; exact Hex].
    destruct (existsb (Nat.eqb tail) adds); [inversion H; subst; exact Hex|].
    assert (Hex' : Forall (valid_node sh) (extra ++ [e_dst e])).
    { apply Forall_app. split; [exact Hex|].
      constructor; [apply (He e eq_refl) | constructor]. }
    destruct (String.eqb (Tag (sh_anim sh) (e_dst e) "sync") tag);
      [inversion H; subst; exact Hex'|].
    destruct (selectAnEdge rand_Float64 (sh_anim sh) sh (e_dst e) [""] k)
      as [edge' k1] eqn:Hsel.
    apply (IH _ _ _ _ _ _ _ H); [|exact Hex'].
    intros e' ->. apply (selectAnEdge_anim_valid _ _ _ _ _ _ Hwf Hsel).
Qed.

Lemma findPathForSyncedCmd_valid w s cmd from k p k' :
  wf_shared (shared s) ->
  findPathForSyncedCmd rand_Float64 Dijkstra w s cmd from k = Done (p, k') ->
  Forall (valid_node (shared s)) p.
Proof.
  intros Hwf. unfold findPathForSyncedCmd.
  destruct (findPathForCmd Dijkstra s cmd from) as [p0| |] eqn:Hbase;
    cbn [bindR]; try discriminate.
  pose proof (proj1 (findPathForCmd_nodes Dijkstra s cmd from) p0 Hbase) as Hp0.
  destruct p0 as [|x p0]; [intros H; inversion H; constructor|].
  destruct (group cmd) as [gid|]; [|discriminate].
  unfold get_group.
  destruct (w_groups w !! gid) as [cg|]; cbn [bindR]; [|discriminate].
  destruct (existsb
              (fun n => String.eqb (Tag (sh_anim (shared s)) n "sync") (sync_tag cg))
              (x :: p0)); [intros H; inversion H; subst; exact Hp0|].
  destruct (selectAnEdge rand_Float64 (sh_anim (shared s)) (shared s)
              (List.last (x :: p0) from) [""] k) as [edge k1] eqn:Hsel.
  destruct (extend_loop rand_Float64 (S (NumNodes (sh_anim (shared s))))
              (shared s) (sync_tag cg) [] (List.last (x :: p0) from) edge [] k1)
    as [[extra k2]| |] eqn:Hext; cbn [bindR]; try discriminate.
  assert (Hextra : Forall (valid_node (shared s)) extra).
  { apply (extend_loop_valid _ _ _ Hwf _ _ _ _ _ _ _ Hext); [|constructor].
    intros e ->. apply (selectAnEdge_anim_valid _ _ _ _ _ _ Hwf Hsel). }
  destruct (_ && _); intros H; inversion H; subst; [|exact Hp0].
  apply (Forall_app_2 _ (x :: p0) extra); [exact Hp0 | exact Hextra].
Qed.

Lemma plan_paths_valid tag w members :
  (forall sid s, w_sprites w !! sid = Some s -> wf_shared (shared s)) ->
  forall e ps mx k e' ps' mx' k',
    plan rand_Float64 Dijkstra tag members w e ps mx k = Done (e', ps', mx', k') ->
    (forall sid p s, ps !! sid = Some p -> w_sprites w !! sid = Some s ->
                     Forall (valid_node (shared s)) p) ->
    forall sid p s, ps' !! sid = Some p -> w_sprites w !! sid = Some s ->
                    Forall (valid_node (shared s)) p.
Proof.
  intros Hwf.
  induction members as [|a rest IH]; intros e ps mx k e' ps' mx' k' H Hps;
    simpl in H.
  - inversion H. subst. exact Hps.
  - destruct (get_sprite a w) as [sp| |] eqn:Hg; cbn [bindR] in H; try discriminate.
    destruct (pending_cmds sp) as [|c cs]; [discriminate|].
    destruct (findPathForSyncedCmd rand_Float64 Dijkstra w sp c (anim_node sp) k)
      as [[p0 k1]| |] eqn:Hf; cbn [bindR] in H; try discriminate.
    apply get_sprite_Done in Hg.
    apply (IH _ _ _ _ _ _ _ _ H).
    intros sid p s Hp Hs. destruct (Nat.eq_dec sid a) as [->|Hne].
    + rewrite lookup_insert_eq in Hp. inversion Hp. subst.
      rewrite Hg in Hs. inversion Hs. subst.
      apply (findPathForSyncedCmd_valid _ _ _ _ _ _ _ (Hwf _ _ Hg) Hf).
    + rewrite lookup_insert_ne in Hp by congruence. apply (Hps _ _ _ Hp Hs).
Qed.

Lemma ready_world_ok gid w b w' :
  ready rand_Float64 Dijkstra gid w = Done (b, w') -> world_ok w -> world_ok w'.
Proof.
  unfold ready, get_group.
  destruct (w_groups w !! gid) as [cg|] eqn:Hg; cbn [bindR]; [|discriminate].
  destruct (was_ready cg); [intros H; inversion H; subst; auto|].
  destruct (all_waiting gid (sprites cg) w) as [ok| |]; cbn [bindR];
    try discriminate.
  destruct ok; [|intros H; inversion H; subst; auto].
  destruct (plan rand_Float64 Dijkstra (sync_tag cg) (sprites cg) w ∅ ∅ 0 (w_rand w))
    as [[[[e ps] mx] k]| |] eqn:Hplan; cbn [bindR]; try discriminate.
  intros H Hok. inversion H. subst. unfold world_ok. simpl.
  apply (store_ok_group _ _ _ cg _ Hok Hg). simpl.
  apply (plan_paths_valid _ _ _
           (fun sid s Hs => proj1 (proj1 Hok sid s Hs))
           _ _ _ _ _ _ _ _ Hplan).
  intros sid p s Hp. rewrite lookup_empty in Hp. discriminate.
Qed.

Lemma think_setup_world_ok sid w w1 :
  think_setup sid w = Done w1 -> world_ok w -> world_ok w1.
Proof.
  unfold think_setup, get_sprite.
  destruct (w_sprites w !! sid) as [s|] eqn:Hs; cbn [bindR]; [|discriminate].
  intros H Hok. pose proof (proj1 Hok _ _ Hs) as Hsok.
  destruct (thinks s =? 0).
  - destruct (facing_ok (shared s) 0); cbn [bindR] in H; [|discriminate].
    inversion H. unfold world_ok. simpl.
    apply (store_ok_sprite _ _ _ s _ Hok Hs); [reflexivity | exact Hsok].
  - cbn [bindR] in H. inversion H. unfold world_ok. simpl.
    apply (store_ok_sprite _ _ _ s _ Hok Hs); [reflexivity | exact Hsok].
Qed.

Lemma check_waiters_world_ok sid w w' :
  check_waiters sid w = Done w' -> world_ok w -> world_ok w'.
Proof.
  unfold check_waiters, get_sprite.
  destruct (w_sprites w !! sid) as [s|] eqn:Hs; cbn [bindR]; [|discriminate].
  intros H Hok. pose proof (proj1 Hok _ _ Hs) as Hsok.
  destruct (Nat.ltb 0 (NumPendingCmds s)); [inversion H; subst; exact Hok|].
  destruct (resolve_waiters _ _ _ _ _) as [[ws ev]| |]; cbn [bindR] in H;
    try discriminate.
  inversion H. unfold world_ok. simpl.
  apply (store_ok_sprite _ _ _ s _ Hok Hs); [reflexivity | exact Hsok].
Qed.

Lemma think_resolve_world_ok sid dt w w2 :
  think_resolve rand_Float64 Dijkstra sid dt w = Done w2 ->
  world_ok w -> world_ok w2.
Proof.
  unfold think_resolve, get_sprite.
  destruct (w_sprites w !! sid) as [s|] eqn:Hs; cbn [bindR]; [|discriminate].
  destruct (pending_cmds s) as [|c cs]; [intros H; inversion H; subst; auto|].
  destruct (path s) as [|x xs] eqn:Hpath; [|intros H; inversion H; subst; auto].
  destruct (group c) as [gid|].
  - destruct (ready rand_Float64 Dijkstra gid w) as [[ok w1]| |] eqn:Hr;
      cbn [bindR]; try discriminate.
    intros H Hok. pose proof (ready_world_ok _ _ _ _ Hr Hok) as Hok1.
    assert (Hs1 : w_sprites w1 !! sid = Some s)
      by (rewrite (ready_sprites _ _ _ _ _ _ Hr); exact Hs).
    destruct ok; [|inversion H; subst; exact Hok1].
    unfold get_group in H.
    destruct (w_groups w1 !! gid) as [cg|] eqn:Hg; cbn [bindR] in H; [|discriminate].
    destruct (proj1 Hok1 _ _ Hs1) as (Hwf & Han & Hpa).
    set (cg' := mkGroup (sync_tag cg) (sprites cg) (was_ready cg)
                  (<[sid := sub64 (default 0 (eta cg !! sid)) dt]> (eta cg))
                  (paths cg)) in *.
    assert (Hok2 : store_ok (w_sprites w1) (<[gid := cg']> (w_groups w1))).
    { apply (store_ok_group _ _ _ cg _ Hok1 Hg). simpl.
      intros sid0 p s0 Hp Hs0. apply (proj2 Hok1 _ _ _ _ _ Hg Hp Hs0). }
    destruct (sub64 (default 0 (eta cg !! sid)) dt <=? 0).
    + destruct (paths cg !! sid) as [p|] eqn:Hp; simpl in H; [|discriminate].
      destruct p as [|n rest]; cbn [bindR] in H; [discriminate|].
      pose proof (proj2 Hok1 _ _ _ _ _ Hg Hp Hs1) as Hvp.
      inversion Hvp as [|? ? Hn Hrest]. subst.
      inversion H. unfold world_ok. simpl.
      apply (store_ok_sprite _ _ _ s _ Hok2 Hs1); [reflexivity|].
      split; [exact Hwf|]. split; [exact Hn|].
      simpl. rewrite Hpath. exact Hrest.
    + cbn [bindR] in H. inversion H. unfold world_ok. simpl.
      apply (store_ok_sprite _ _ _ s _ Hok2 Hs1); [reflexivity|].
      split; [exact Hwf|]. split; [exact Han | exact Hpa].
  - destruct (findPathForCmd Dijkstra s c (anim_node s)) as [p| |] eqn:Hf;
      cbn [bindR]; try discriminate.
    intros H Hok. destruct (proj1 Hok _ _ Hs) as (Hwf & Han & Hpa).
    pose proof (proj1 (findPathForCmd_nodes Dijkstra s c (anim_node s)) p Hf) as Hp.
    destruct p as [|n p]; [inversion H; subst; exact Hok|].
    inversion H. unfold world_ok. simpl.
    apply (store_ok_sprite _ _ _ s _ Hok Hs); [reflexivity|].
    split; [exact Hwf|]. split; [exact Han|].
    simpl. rewrite Hpath. exact Hp.
Qed.

Lemma think_short_circuit_ok s : sprite_ok s -> sprite_ok (think_short_circuit s).
Proof.
  intros Hok. unfold think_short_circuit.
  repeat match goal with
         | |- context [match ?x with _ => _ end] => destruct x
         end; exact Hok.
Qed.

Lemma think_stay_ok s dt s' ev :
  think_stay s dt = Done (s', ev) -> sprite_ok s ->
  sprite_ok s' /\ shared s' = shared s.
Proof.
  unfold think_stay. simpl.
  destruct (negb (facing s =? prev_facing s)).
  - destruct (facing_ok (shared s) (prev_facing s) && facing_ok (shared s) (facing s));
      [|discriminate].
    intros H Hok. inversion H. split; [exact Hok | reflexivity].
  - intros H Hok. inversion H. split; [exact Hok | reflexivity].
Qed.

Lemma think_advance_ok sid s k s' ev k' :
  think_advance rand_Float64 sid s k = Done (s', ev, k') -> sprite_ok s ->
  sprite_ok s' /\ shared s' = shared s.
Proof.
  intros H (Hwf & Han & Hpa). unfold think_advance in H.
  assert (Hfin : forall next s1 k1,
            shared s1 = shared s ->
            valid_node (shared s) next ->
            Forall (valid_node (shared s)) (path s1) ->
            (do s2 <-
               (if negb (ed_facing (edge_data_opt (shared s)
                                      (edgeTo (sh_anim (shared s)) (anim_node s1) next))
                         =? 0)
                then if Z.of_nat (sh_facings (shared s)) =? 0 then Panic
                     else Done (set_facing s1
                                  (rem64 (add64 (add64 (facing s1)
                                     (ed_facing (edge_data_opt (shared s)
                                        (edgeTo (sh_anim (shared s)) (anim_node s1) next))))
                                     (Z.of_nat (sh_facings (shared s))))
                                     (Z.of_nat (sh_facings (shared s)))))
                else Done s1);
             Done (set_togo (set_anim_node s2 next)
                     (nd_time (node_data (shared s) next)),
                   doTrigger sid (set_anim_node s2 next), k1))
            = Done (s', ev, k') ->
            sprite_ok s' /\ shared s' = shared s).
  { intros next s1 k1 Hsh Hnext Hp1 H1.
    destruct (negb (ed_facing _ =? 0)).
    - destruct (Z.of_nat (sh_facings (shared s)) =? 0); cbn [bindR] in H1;
        [discriminate|].
      inversion H1. subst. simpl. split; [|exact Hsh].
      unfold sprite_ok. simpl. rewrite Hsh. auto.
    - cbn [bindR] in H1. inversion H1. subst. simpl. split; [|exact Hsh].
      unfold sprite_ok. simpl. rewrite Hsh. auto. }
  destruct (path s) as [|n rest] eqn:Hpath.
  - destruct (selectAnEdge rand_Float64 (sh_anim (shared s)) (shared s)
                (anim_node s) [""] k) as [[e|] k0] eqn:Hsel.
    + apply (Hfin _ _ _ eq_refl
               (selectAnEdge_anim_valid _ _ _ _ _ _ Hwf Hsel)
               ltac:(rewrite Hpath; constructor) H).
    + apply (Hfin _ _ _ eq_refl Han ltac:(rewrite Hpath; constructor) H).
  - inversion Hpa as [|? ? Hn Hrest]. subst.
    apply (Hfin n (set_path s rest) k eq_refl Hn Hrest H).
Qed.

Lemma Think_world_ok fuel :
  forall sid dt w w',
    Think rand_Float64 Dijkstra fuel sid dt w = Done w' ->
    world_ok w -> world_ok w'.
Proof.
  induction fuel as [|fuel IH]; intros sid dt w w' H Hok; [discriminate|].
  rewrite Think_S in H.
  destruct (think_setup sid w) as [w1| |] eqn:E1; cbn [bindR] in H;
    try discriminate.
  pose proof (think_setup_world_ok _ _ _ E1 Hok) as Hok1.
  destruct (dt <? 0); [inversion H; subst; exact Hok1|].
  destruct (think_resolve rand_Float64 Dijkstra sid dt w1) as [w2| |] eqn:E2;
    cbn [bindR] in H; try discriminate.
  pose proof (think_resolve_world_ok _ _ _ _ E2 Hok1) as Hok2.
  unfold get_sprite in H.
  destruct (w_sprites w2 !! sid) as [s|] eqn:Hs; cbn [bindR] in H; [|discriminate].
  cbv zeta in H.
  pose proof (think_short_circuit_ok s (proj1 Hok2 _ _ Hs)) as Hsc.
  assert (Shc : shared (think_short_circuit s) = shared s)
    by (destruct (think_short_circuit_inv s) as ((Sh & _) & _); exact Sh).
  destruct (dt <=? togo (think_short_circuit s)).
  - destruct (think_stay (think_short_circuit s) dt) as [[s' ev]| |] eqn:E3;
      cbn [bindR] in H; try discriminate.
    destruct (think_stay_ok _ _ _ _ E3 Hsc) as [Hs'ok Sh'].
    apply (check_waiters_world_ok _ _ _ H).
    unfold world_ok. simpl.
    apply (store_ok_sprite _ _ _ s _ Hok2 Hs); [congruence | exact Hs'ok].
  - destruct (think_advance rand_Float64 sid (think_short_circuit s) (w_rand w2))
      as [[[s' ev] k]| |] eqn:E3; cbn [bindR] in H; try discriminate.
    destruct (think_advance_ok _ _ _ _ _ _ E3 Hsc) as [Hs'ok Sh'].
    destruct (Think rand_Float64 Dijkstra fuel sid
                (sub64 dt (togo (think_short_circuit s)))
                (set_rand k (emit ev (put_sprite sid s' w2)))) as [w3| |] eqn:E4;
      cbn [bindR] in H; try discriminate.
    apply (check_waiters_world_ok _ _ _ H).
    apply (IH _ _ _ _ E4).
    unfold world_ok. simpl.
    apply (store_ok_sprite _ _ _ s _ Hok2 Hs); [congruence | exact Hs'ok].
Qed.

End OnTheGraph.

(** A world with one freshly loaded sprite of the walking example. *)
Lemma Walk_w0_ok : world_ok Walk.w0.
Proof.
  split.
  - intros sid s Hs. destruct sid as [|sid]; simpl in Hs; [|discriminate].
    inversion Hs. subst. split; [|split].
    + intros i e Hin. unfold valid_node.
      destruct i as [|[|i]]; simpl in Hin.
      * destruct Hin as [<-|[]]. vm_compute. lia.
      * destruct Hin.
      * unfold Outputs, the_node in Hin. simpl in Hin. destruct Hin.
    + unfold valid_node. vm_compute. lia.
    + constructor.
  - intros g cg sid p s Hg. simpl in Hg. rewrite lookup_nil in Hg. discriminate.
Qed.

(** X17: when every sprite of the world is on a node of its animation
    graph with a path of such nodes, the outgoing edges of the graphs end
    on nodes of the graphs, and the paths stored by the groups are paths of
    the graphs, a call of Think that returns leaves the world so: the
    sprite ends on a node that exists, and the nodes still queued on its
    path exist. *)
Theorem Think_stays_on_graph
    (rand_Float64 : nat -> float)
    (Dijkstra : AlgoGraph -> list nat -> list nat -> float * list nat)
    (fuel sid : nat) (dt : Z) (w w' : World) :
  Think rand_Float64 Dijkstra fuel sid dt w = Done w' ->
  world_ok w ->
  world_ok w'
  /\ forall s', w_sprites w' !! sid = Some s' ->
       (anim_node s' < NumNodes (sh_anim (shared s')))%nat
       /\ Forall (fun n => (n < NumNodes (sh_anim (shared s')))%nat) (path s').
Proof.
  intros H Hok.
  pose proof (Think_world_ok rand_Float64 Dijkstra fuel sid dt w w' H Hok) as Hok'.
  split; [exact Hok'|].
  intros s' Hs'. destruct (proj1 Hok' _ _ Hs') as (_ & Han & Hpa).
  split; [exact Han | exact Hpa].
Qed.

Lemma Think_stays_on_graph_witness :
  world_ok (match Think Walk.rnd Algorithm.Dijkstra 10 0 130 Walk.w0 with
            | Done w => w | _ => Walk.w0 end)
  /\ forall s',
       w_sprites (match Think Walk.rnd Algorithm.Dijkstra 10 0 130 Walk.w0 with
                  | Done w => w | _ => Walk.w0 end) !! 0%nat = Some s' ->
       (anim_node s' < NumNodes (sh_anim (shared s')))%nat
       /\ Forall (fun n => (n < NumNodes (sh_anim (shared s')))%nat) (path s').
Proof.
  apply (Think_stays_on_graph Walk.rnd Algorithm.Dijkstra 10 0 130 Walk.w0).
  - vm_compute. reflexivity.
  - exact Walk_w0_ok.
Defined.

(** ** Commands and restores keep the sprites on their graphs *)

Lemma store_ok_pointwise sps sps' gs :
  store_ok sps gs ->
  (forall sid s', sps' !! sid = Some s' ->
     exists s, sps !! sid = Some s /\ shared s' = shared s
       /\ anim_node s' = anim_node s /\ path s' = path s) ->
  store_ok sps' gs.
Proof.
  intros [Hsp Hgr] Hpt. split.
  - intros sid s' Hs'. destruct (Hpt _ _ Hs') as (s & Hs & Sh & An & Pa).
    destruct (Hsp _ _ Hs) as (Hwf & Han & Hpa).
    unfold sprite_ok, valid_node. rewrite Sh, An, Pa. auto.
  - intros g cg sid p s' Hg Hp Hs'. destruct (Hpt _ _ Hs') as (s & Hs & Sh & _).
    unfold valid_node. rewrite Sh. apply (Hgr _ _ _ _ _ Hg Hp Hs).
Qed.

Lemma baseCommand_world_ok rand_Float64 fuel sid cmd w b w' :
  baseCommand rand_Float64 fuel sid cmd w = Done (b, w') ->
  world_ok w -> world_ok w'.
Proof.
  intros H Hok.
  destruct (baseCommand_frame _ _ _ _ _ _ _ H)
    as (Hg & _ & _ & Ho & s & s' & Hs & Hs' & Hu & _).
  unfold world_ok. rewrite Hg.
  apply (store_ok_pointwise _ _ _ Hok).
  intros sid0 s0 H0. destruct (Nat.eq_dec sid0 sid) as [->|Hne].
  - rewrite Hs' in H0. inversion H0. subst. exists s.
    destruct Hu as (Sh & An & _ & _ & _ & _ & _ & Pa & _). auto.
  - rewrite (Ho _ Hne) in H0. exists s0. auto.
Qed.

Lemma CommandSync_loop_world_ok rand_Float64 fuel gid ss :
  forall cmds w w',
    CommandSync_loop rand_Float64 fuel gid ss cmds w = Done w' ->
    world_ok w -> world_ok w'.
Proof.
  induction ss as [|sid ss IH]; intros cmds w w' H Hok; simpl in H.
  - inversion H. subst. exact Hok.
  - destruct cmds as [|c cmds]; [discriminate|].
    destruct (baseCommand rand_Float64 fuel sid (mkCommand c (Some gid)) w)
      as [[ok w1]| |] eqn:Hb; cbn [bindR] in H; try discriminate.
    pose proof (baseCommand_world_ok _ _ _ _ _ _ _ Hb Hok) as Hok1.
    destruct ok; [|apply (IH _ _ _ H Hok1)].
    unfold get_group in H.
    destruct (w_groups w1 !! gid) as [cg|] eqn:Hg; cbn [bindR] in H; [|discriminate].
    apply (IH _ _ _ H). unfold world_ok. simpl.
    apply (store_ok_group _ _ _ cg _ Hok1 Hg). simpl.
    intros sid0 p s0 Hp Hs0. apply (proj2 Hok1 _ _ _ _ _ Hg Hp Hs0).
Qed.

(** X18: commands and restores keep every sprite on a node of its graph:
    baseCommand (accepting or not), CommandSync and a SetSpriteState that
    returns (with or without error) lead from a world in which the sprites
    and the stored paths are on their graphs to such a world. *)
Theorem intake_stays_on_graph :
  (forall rand_Float64 fuel sid cmd w b w',
      baseCommand rand_Float64 fuel sid cmd w = Done (b, w') ->
      world_ok w -> world_ok w')
  /\ (forall rand_Float64 fuel ss cmds tag w w',
        CommandSync rand_Float64 fuel ss cmds tag w = Done w' ->
        world_ok w -> world_ok w')
  /\ (forall sid state w r w',
        SetSpriteState sid state w = Done (r, w') ->
        world_ok w -> world_ok w').
Proof.
  split; [exact baseCommand_world_ok|]. split.
  - intros rnd fuel ss cmds tag w w' H Hok. unfold CommandSync in H.
    apply (CommandSync_loop_world_ok _ _ _ _ _ _ _ H).
    unfold world_ok. simpl. destruct Hok as [Hsp Hgr]. split; [exact Hsp|].
    intros g cg sid p s Hg Hp Hs.
    destruct (decide (g < length (w_groups w))%nat) as [Hlt|Hge].
    + rewrite lookup_app_l in Hg by exact Hlt. apply (Hgr _ _ _ _ _ Hg Hp Hs).
    + rewrite lookup_app_r in Hg by lia.
      destruct (g - length (w_groups w))%nat; simpl in Hg; [|discriminate].
      inversion Hg. subst. simpl in Hp. rewrite lookup_empty in Hp. discriminate.
  - intros sid state w r w' H Hok. unfold SetSpriteState, get_sprite in H.
    destruct (w_sprites w !! sid) as [s|] eqn:Hs; cbn [bindR] in H; [|discriminate].
    destruct (Nat.ltb 0 (length (waiters s))); [inversion H; subst; exact Hok|].
    destruct (proj1 Hok _ _ Hs) as (Hwf & _ & _).
    assert (Hfin : forall s1 ev,
              shared s1 = shared s ->
              (do a <- node_at (sh_anim (shared s)) (ss_Anim_node_id state);
               do st <- node_at (sh_state (shared s)) (ss_State_node_id state);
               Done (None,
                     emit ev
                       (put_sprite sid
                          (set_pending_cmds
                             (set_path (set_state_node (set_anim_node s1 a) st) [])
                             []) w)))
              = Done (r, w') -> world_ok w').
    { intros s1 ev Sh H1.
      destruct (node_at (sh_anim (shared s)) (ss_Anim_node_id state))
        as [a| |] eqn:Ha; cbn [bindR] in H1; try discriminate.
      destruct (node_at (sh_state (shared s)) (ss_State_node_id state))
        as [st| |]; cbn [bindR] in H1; try discriminate.
      inversion H1. unfold world_ok. simpl.
      apply (store_ok_sprite _ _ _ s _ Hok Hs); [exact Sh|].
      unfold sprite_ok, valid_node. simpl. rewrite Sh.
      split; [exact Hwf|]. split; [|constructor].
      apply node_at_Done in Ha. apply Ha. }
    destruct (thinks s =? 0).
    + destruct (facing_ok (shared s) (ss_Facing state)); cbn [bindR] in H;
        [|discriminate].
      refine (Hfin _ _ _ H); reflexivity.
    + destruct (negb (ss_Facing state =? facing s)).
      * destruct (facing_ok (shared s) (ss_Facing state)); cbn [bindR] in H;
          [|discriminate].
        refine (Hfin _ _ _ H); reflexivity.
      * cbn [bindR] in H. refine (Hfin _ _ _ H); reflexivity.
Qed.

(** ** When a group is not ready *)

Lemma all_waiting_false gid w members :
  (forall sid, sid ∈ members -> exists s, w_sprites w !! sid = Some s) ->
  (all_waiting gid members w = Done false
   <-> exists sid s, sid ∈ members /\ w_sprites w !! sid = Some s
         /\ (path s <> []
             \/ pending_cmds s = []
             \/ exists c rest, pending_cmds s = c :: rest /\ group c <> Some gid))
  /\ (all_waiting gid members w = Done false \/ all_waiting gid members w = Done true).
Proof.
  induction members as [|a rest IH]; intros Hex; simpl.
  - split; [|right; reflexivity]. split; [discriminate|].
    intros (sid & s & Hin & _). apply elem_of_nil in Hin. destruct Hin.
  - destruct (Hex a) as [s Hs]; [left|].
    rewrite (get_sprite_Some _ _ _ Hs). cbn [bindR].
    assert (Hex' : forall sid, sid ∈ rest -> exists s0, w_sprites w !! sid = Some s0)
      by (intros sid Hin; apply Hex; right; exact Hin).
    destruct (IH Hex') as [IH1 IH2].
    assert (Hhere : forall P : Prop,
              (path s <> [] \/ pending_cmds s = []
               \/ exists c rest0, pending_cmds s = c :: rest0 /\ group c <> Some gid) ->
              exists sid s0, sid ∈ a :: rest /\ w_sprites w !! sid = Some s0
                /\ (path s0 <> [] \/ pending_cmds s0 = []
                    \/ exists c rest0, pending_cmds s0 = c :: rest0
                                       /\ group c <> Some gid)).
    { intros _ Hbad. exists a, s. split; [left|]. split; [exact Hs | exact Hbad]. }
    destruct (path s) as [|x xs] eqn:Hpath; simpl.
    2:{ split; [|left; reflexivity]. split; [intros _|reflexivity].
        apply (Hhere True). left. discriminate. }
    destruct (pending_cmds s) as [|c cs] eqn:Hp.
    { split; [|left; reflexivity]. split; [intros _|reflexivity].
      apply (Hhere True). right. left. reflexivity. }
    assert (Hother : group c <> Some gid ->
              exists sid s0, sid ∈ a :: rest /\ w_sprites w !! sid = Some s0
                /\ (path s0 <> [] \/ pending_cmds s0 = []
                    \/ exists c0 rest0, pending_cmds s0 = c0 :: rest0
                                        /\ group c0 <> Some gid)).
    { intros Hne. exists a, s. split; [left|]. split; [exact Hs|].
      right. right. exists c, cs. rewrite Hp. split; [reflexivity | exact Hne]. }
    destruct (group c) as [g'|] eqn:Hgc.
    2:{ split; [|left; reflexivity]. split; [intros _|reflexivity].
        apply Hother. discriminate. }
    destruct (Nat.eqb_spec g' gid) as [->|Hne].
    2:{ split; [|left; reflexivity]. split; [intros _|reflexivity].
        apply Hother. congruence. }
    split; [|exact IH2]. rewrite IH1. split.
    + intros (sid & s0 & Hin & H0). exists sid, s0. split; [right; exact Hin | exact H0].
    + intros (sid & s0 & Hin & Hs0 & Hbad).
      apply elem_of_cons in Hin as [->|Hin].
      * rewrite Hs in Hs0. inversion Hs0. subst s0.
        destruct Hbad as [Hb|[Hb|(c0 & r0 & Hb & Hg0)]].
        -- rewrite Hpath in Hb. contradiction.
        -- rewrite Hp in Hb. discriminate.
        -- rewrite Hp in Hb. inversion Hb. subst. contradiction.
      * exists sid, s0. split; [exact Hin|]. split; [exact Hs0 | exact Hbad].
Qed.

(** X19: for a group that has not been ready yet and whose members are
    sprites of the world, ready() answers false exactly when some member
    has a path in flight, or no pending command, or a first pending command
    that belongs to no group or to another group. *)
Theorem ready_false_iff
    (rand_Float64 : nat -> float)
    (Dijkstra : AlgoGraph -> list nat -> list nat -> float * list nat)
    (gid : nat) (w : World) (cg : commandGroup) :
  w_groups w !! gid = Some cg ->
  was_ready cg = false ->
  (forall sid, sid ∈ sprites cg -> exists s, w_sprites w !! sid = Some s) ->
  (ready rand_Float64 Dijkstra gid w = Done (false, w)
   <-> exists sid s, sid ∈ sprites cg /\ w_sprites w !! sid = Some s
         /\ (path s <> []
             \/ pending_cmds s = []
             \/ exists c rest, pending_cmds s = c :: rest /\ group c <> Some gid)).
Proof.
  intros Hg Hwr Hex.
  destruct (all_waiting_false gid w (sprites cg) Hex) as [Hiff Htot].
  rewrite <- Hiff. unfold ready, get_group. rewrite Hg. cbn [bindR]. rewrite Hwr.
  destruct Htot as [-> | ->]; cbn [bindR].
  - split; reflexivity.
  - split; [|discriminate].
    destruct (plan rand_Float64 Dijkstra (sync_tag cg) (sprites cg) w ∅ ∅ 0 (w_rand w))
      as [[[[e ps] mx] k]| |]; cbn [bindR]; discriminate.
Qed.

Lemma ready_false_iff_witness :
  ready Walk.rnd Algorithm.Dijkstra 0
    (mkWorld [Walk.sprite0] [mkGroup "go" [0%nat] false ∅ ∅] 0 [])
  = Done (false, mkWorld [Walk.sprite0] [mkGroup "go" [0%nat] false ∅ ∅] 0 [])
  <-> exists sid s,
        sid ∈ sprites (mkGroup "go" [0%nat] false ∅ ∅)
        /\ w_sprites (mkWorld [Walk.sprite0] [mkGroup "go" [0%nat] false ∅ ∅] 0 [])
             !! sid = Some s
        /\ (path s <> []
            \/ pending_cmds s = []
            \/ exists c rest, pending_cmds s = c :: rest /\ group c <> Some 0%nat).
Proof.
  apply (ready_false_iff Walk.rnd Algorithm.Dijkstra 0
           (mkWorld [Walk.sprite0] [mkGroup "go" [0%nat] false ∅ ∅] 0 [])
           (mkGroup "go" [0%nat] false ∅ ∅)).
  - reflexivity.
  - reflexivity.
  - intros sid Hin. apply elem_of_cons in Hin as [->|Hin].
    + exists Walk.sprite0. reflexivity.
    + apply elem_of_nil in Hin. destruct Hin.
Defined.

(** ** The grouped branch of Think and an empty path *)

(** X20: when the first pending command of a sprite without a path in
    flight belongs to a group that is ready, the countdown of the sprite
    is over after the step and the group stores no node for the sprite,
    Think panics: the empty path is indexed. *)
Theorem Think_group_empty_path_panics
    (rand_Float64 : nat -> float)
    (Dijkstra : AlgoGraph -> list nat -> list nat -> float * list nat)
    (fuel sid gid : nat) (dt : Z) (w : World) (s : Sprite)
    (c : command) (cs : list command) (cg : commandGroup) :
  w_sprites w !! sid = Some s ->
  (thinks s = 0 -> (0 < sh_facings (shared s))%nat) ->
  0 <= dt ->
  pending_cmds s = c :: cs ->
  path s = [] ->
  group c = Some gid ->
  w_groups w !! gid = Some cg ->
  was_ready cg = true ->
  sub64 (default 0 (eta cg !! sid)) dt <= 0 ->
  default [] (paths cg !! sid) = [] ->
  Think rand_Float64 Dijkstra (S fuel) sid dt w = Panic.
Proof.
  intros Hs Hfac Hdt Hp Hpath Hgc Hg Hwr Ht Hpaths.
  rewrite Think_S.
  assert (E1 : exists s1, think_setup sid w = Done (emit (if thinks s =? 0 then [Load 0] else []) (put_sprite sid s1 w))
                 /\ pending_cmds s1 = c :: cs /\ path s1 = []).
  { destruct (Z.eq_dec (thinks s) 0) as [Hth|Hth].
    - rewrite (think_setup_first sid w s Hs Hth (Hfac Hth)).
      rewrite Hth. simpl. eexists. split; [reflexivity|]. simpl. auto.
    - rewrite (think_setup_later sid w s Hs Hth).
      apply Z.eqb_neq in Hth. rewrite Hth. eexists. split; [reflexivity|].
      simpl. auto. }
  destruct E1 as (s1 & -> & Hp1 & Hpath1). cbn [bindR].
  replace (dt <? 0) with false by (symmetry; apply Z.ltb_ge; lia).
  unfold think_resolve.
  erewrite get_sprite_Some by (apply (lookup_put_sprite _ _ _ _ Hs)).
  cbn [bindR]. rewrite Hp1, Hpath1, Hgc.
  unfold ready, get_group. simpl. rewrite Hg. cbn [bindR]. rewrite Hwr.
  cbn [bindR]. simpl. rewrite Hg. cbn [bindR].
  apply Z.leb_le in Ht. rewrite Ht. rewrite Hpaths. reflexivity.
Qed.

Lemma Think_group_empty_path_panics_witness :
  Think Walk.rnd Algorithm.Dijkstra 1 0 16
    (mkWorld [mkSprite Walk.sh 0 0 true 1 0 0 0 100 []
                [mkCommand [] (Some 0%nat)] []]
       [mkGroup "go" [0%nat] true ∅ ∅] 0 [])
  = Panic.
Proof.
  apply (Think_group_empty_path_panics Walk.rnd Algorithm.Dijkstra 0 0 0 16
           (mkWorld [mkSprite Walk.sh 0 0 true 1 0 0 0 100 []
                       [mkCommand [] (Some 0%nat)] []]
              [mkGroup "go" [0%nat] true ∅ ∅] 0 [])
           (mkSprite Walk.sh 0 0 true 1 0 0 0 100 [] [mkCommand [] (Some 0%nat)] [])
           (mkCommand [] (Some 0%nat)) [] (mkGroup "go" [0%nat] true ∅ ∅)).
  - reflexivity.
  - simpl. lia.
  - lia.
  - reflexivity.
  - reflexivity.
  - reflexivity.
  - reflexivity.
  - reflexivity.
  - vm_compute. discriminate.
  - reflexivity.
Defined.

(** ** A frame without duration *)

Section ZeroDuration.

Variable rand_Float64 : nat -> float.
Variable Dijkstra : AlgoGraph -> list nat -> list nat -> float * list nat.

Lemma selectAnEdge_no_outputs g sh node cmds k :
  Outputs g node = [] ->
  selectAnEdge rand_Float64 g sh node cmds k = (None, k).
Proof. intros H. unfold selectAnEdge. rewrite H. reflexivity. Qed.

Lemma Think_zero_duration_loop fuel :
  forall sid dt w s,
    w_sprites w !! sid = Some s ->
    (0 < sh_facings (shared s))%nat ->
    pending_cmds s = [] ->
    path s = [] ->
    togo s = 0 ->
    nd_time (node_data (shared s) (anim_node s)) = 0 ->
    Outputs (sh_anim (shared s)) (anim_node s) = [] ->
    GroupOutputs (sh_anim (shared s)) (anim_node s) = [] ->
    0 < dt < 2 ^ 63 ->
    Think rand_Float64 Dijkstra fuel sid dt w = Timeout.
Proof.
  induction fuel as [|fuel IH];
    intros sid dt w s Hs Hfac Hp Hpath Htogo Htime Hout Hgout Hdt;
    [reflexivity|].
  rewrite Think_S.
  assert (E1 : exists s1 ev,
             think_setup sid w = Done (emit ev (put_sprite sid s1 w))
             /\ shared s1 = shared s /\ anim_node s1 = anim_node s
             /\ pending_cmds s1 = [] /\ path s1 = [] /\ togo s1 = 0).
  { destruct (Z.eq_dec (thinks s) 0) as [Hth|Hth].
    - rewrite (think_setup_first sid w s Hs Hth Hfac).
      eexists. eexists. split; [reflexivity|]. simpl. auto.
    - rewrite (think_setup_later sid w s Hs Hth).
      eexists. eexists. split; [reflexivity|]. simpl. auto. }
  destruct E1 as (s1 & ev1 & -> & Sh1 & An1 & Hp1 & Hpath1 & Htogo1).
  cbn [bindR].
  replace (dt <? 0) with false by (symmetry; apply Z.ltb_ge; lia).
  assert (Hs1 : w_sprites (emit ev1 (put_sprite sid s1 w)) !! sid = Some s1)
    by (apply (lookup_put_sprite _ _ _ _ Hs)).
  rewrite (think_resolve_idle rand_Float64 Dijkstra sid dt _ s1 Hs1)
    by (left; exact Hp1).
  cbn [bindR]. rewrite (get_sprite_Some _ _ _ Hs1). cbn [bindR]. cbv zeta.
  assert (Hsc : think_short_circuit s1 = s1)
    by (unfold think_short_circuit; rewrite Hpath1; reflexivity).
  rewrite Hsc, Htogo1.
  replace (dt <=? 0) with false by (symmetry; apply Z.leb_gt; lia).
  unfold think_advance. rewrite Hpath1, Sh1, An1.
  rewrite (selectAnEdge_no_outputs _ _ _ _ _ Hout).
  unfold edgeTo. rewrite ?An1, Hgout. simpl. cbn [bindR].
  unfold sub64. rewrite Z.sub_0_r. rewrite wrap64_id by (unfold in_int64; lia).
  erewrite IH; [reflexivity| | | | | | | | |exact Hdt].
  - simpl. apply list_lookup_insert_eq. rewrite length_insert.
    apply lookup_lt_Some in Hs. exact Hs.
  - simpl. rewrite Sh1. exact Hfac.
  - simpl. exact Hp1.
  - simpl. exact Hpath1.
  - simpl. exact Htime.
  - simpl. rewrite Sh1. exact Htime.
  - simpl. rewrite Sh1. exact Hout.
  - simpl. rewrite Sh1. exact Hgout.
Qed.

End ZeroDuration.

(** X21: on a node of duration 0 that has no outgoing edge, an idle sprite
    with no time left never comes back from Think(dt) with dt > 0: the move
    to the next node is a move to the same node, no time is used up and
    Think calls itself again with the same dt, at any depth. *)
Theorem Think_zero_duration_diverges
    (rand_Float64 : nat -> float)
    (Dijkstra : AlgoGraph -> list nat -> list nat -> float * list nat)
    (fuel sid : nat) (dt : Z) (w : World) (s : Sprite) :
  w_sprites w !! sid = Some s ->
  (0 < sh_facings (shared s))%nat ->
  pending_cmds s = [] ->
  path s = [] ->
  togo s = 0 ->
  nd_time (node_data (shared s) (anim_node s)) = 0 ->
  Outputs (sh_anim (shared s)) (anim_node s) = [] ->
  GroupOutputs (sh_anim (shared s)) (anim_node s) = [] ->
  0 < dt < 2 ^ 63 ->
  Think rand_Float64 Dijkstra fuel sid dt w = Timeout.
Proof.
  apply Think_zero_duration_loop.
Qed.

Lemma Think_zero_duration_diverges_witness :
  Think Walk.rnd Algorithm.Dijkstra 1000 0 16
    (mkWorld
       [newSprite (mkShared (mkGraph [mkNode "still" [("time", "0")] None [] []] [])
                     Walk.state 0 0 (<[0%nat := mkNodeData 0 "" "still"]> ∅) ∅ 1)]
       [] 0 [])
  = Timeout.
Proof.
  apply (Think_zero_duration_diverges Walk.rnd Algorithm.Dijkstra 1000 0 16
           (mkWorld
              [newSprite
                 (mkShared (mkGraph [mkNode "still" [("time", "0")] None [] []] [])
                    Walk.state 0 0 (<[0%nat := mkNodeData 0 "" "still"]> ∅) ∅ 1)]
              [] 0 [])
           (newSprite
              (mkShared (mkGraph [mkNode "still" [("time", "0")] None [] []] [])
                 Walk.state 0 0 (<[0%nat := mkNodeData 0 "" "still"]> ∅) ∅ 1))).
  - reflexivity.
  - simpl. lia.
  - reflexivity.
  - reflexivity.
  - reflexivity.
  - reflexivity.
  - reflexivity.
  - reflexivity.
  - lia.
Defined.
